(** * The performance test suite of [performanceTest.ts]

    A shallow embedding of the measurement and aggregation core of
    [SimplePerformanceTest]: the request prober, the weighted endpoint
    selector, the fixed-count benchmark loop, and the report generator with
    its percentile arithmetic and recommendation ladder.

    Numbers.  Durations, rates and means are JavaScript numbers; they are
    modelled as exact rationals ([Qc]), so rounding inside sums and quotients
    is not represented.  Counts and status codes are integers.  The one place
    where rounding could change a discrete outcome is the percentile index
    [Math.floor(length * 0.95)]: it is modelled in IEEE-754 binary64 with the
    standard library's [SpecFloat], and related to exact integer arithmetic by
    the lemmas of [Binary64Facts].

    Comparisons of a rate [s / t] with the literals 0.999, 0.99 and 0.95, and
    the quotient in [Math.floor(requests / 10)], give the same answers in
    binary64 as in exact arithmetic for counts below [2^32]: two distinct
    fractions with such denominators differ by far more than a rounding
    error.  A quotient by zero ([NaN] in JavaScript) has no counterpart in
    [Qc]; the statements about means are made for non-empty arrays, the only
    ones report generation divides by.

    Inputs.  The [endpoint] of a sample is a catalog path (it starts with a
    slash), so it is neither an inherited property name of a JavaScript object
    nor an array index; the statistics object keyed by endpoint is therefore
    a plain finite map, and the order of its entries plays no role. *)

From Stdlib Require Import ZArith QArith Qcanon Qround Lia Bool.
From Stdlib Require Import Floats.SpecFloat.
From stdpp Require Import gmap strings list sorting numbers.

Open Scope Qc_scope.

(** ** IEEE-754 binary64 arithmetic for index computations *)

Module Binary64.

Definition prec : Z := 53.
Definition emax : Z := 1024.

(** An array length as a JavaScript number. *)
Definition of_nat (n : nat) : spec_float :=
  binary_normalize prec emax (Z.of_nat n) 0 false.

(** The decimal literals [0.5], [0.95] and [0.99] denote the doubles nearest
    to them, that is the correctly rounded quotients. *)
Definition c0_5 : spec_float := SFdiv prec emax (of_nat 5) (of_nat 10).
Definition c0_95 : spec_float := SFdiv prec emax (of_nat 95) (of_nat 100).
Definition c0_99 : spec_float := SFdiv prec emax (of_nat 99) (of_nat 100).

(** [Math.floor]; [None] stands for a result that is not an integer
    ([NaN] or an infinity). *)
Definition floor (x : spec_float) : option Z :=
  match x with
  | S754_zero _ => Some 0%Z
  | S754_finite s m e =>
      let v := if s then Zneg m else Zpos m in
      Some (if (0 <=? e)%Z then v * 2 ^ e else v / 2 ^ (- e))%Z
  | _ => None
  end.

(** [Math.floor(n * c)] *)
Definition floorMul (n : nat) (c : spec_float) : option Z :=
  floor (SFmul prec emax (of_nat n) c).

(** What the round and sticky bits of [SpecFloat]'s shift register say after
    [k] right shifts of the mantissa [m]: the part shifted out, [R], is
    zero, below, at, or above half a unit of the shifted mantissa. *)
Definition shr_inv (m : Z) (k : nat) (mrs : shr_record) : Prop :=
  (0 <= shr_m mrs)%Z ∧
  ∃ R : Z, (m = shr_m mrs * 2 ^ Z.of_nat k + R)%Z ∧
    match shr_r mrs, shr_s mrs with
    | false, false => R = 0%Z
    | false, true => (0 < 2 * R < 2 ^ Z.of_nat k)%Z
    | true, false => (2 * R = 2 ^ Z.of_nat k)%Z
    | true, true => (2 ^ Z.of_nat k < 2 * R < 2 * 2 ^ Z.of_nat k)%Z
    end.

End Binary64.

(** ** Data model *)

Record PerformanceMetric := {
  endpoint : string;
  method : string;
  responseTime : Qc;
  statusCode : Z;
  contentLength : nat;
  timestamp : Z
}.

Module Summary.
Record t := {
  totalRequests : nat;
  averageResponseTime : Qc;
  p50ResponseTime : Qc;
  p95ResponseTime : Qc;
  p99ResponseTime : Qc;
  minResponseTime : Qc;
  maxResponseTime : Qc;
  successRate : Qc;
  errorRate : Qc
}.
End Summary.

Module Breakdown.
Record t := {
  requests : nat;
  avgResponseTime : Qc;
  p95ResponseTime : Qc;
  successRate : Qc
}.
End Breakdown.

Record PerformanceReport := {
  summary : Summary.t;
  endpointBreakdown : gmap string Breakdown.t;
  timeSeriesData : list PerformanceMetric;
  recommendations : list string
}.

(** Thrown values: [new Error(message)], and the [TypeError] raised by the
    runtime (a rejected [fetch], a property read on [undefined]). *)
Inductive exn :=
| Error (message : string)
| TypeError (message : string).

(** ** Number and array helpers *)

Definition num (n : nat) : Qc := Qc_of_Z (Z.of_nat n).
Definition dec (a : Z) (b : positive) : Qc := Q2Qc (a # b).

(** [r.statusCode >= 200 && r.statusCode < 400] *)
Definition isSuccessful (r : PerformanceMetric) : bool :=
  (200 <=? statusCode r)%Z && (statusCode r <? 400)%Z.

(** [.sort((a, b) => a - b)] *)
Definition sortAscending (times : list Qc) : list Qc := merge_sort Qcle times.

(** [.reduce((sum, time) => sum + time, 0)] *)
Definition sumOf (times : list Qc) : Qc := foldl Qcplus 0 times.

(** [times[i]] for a computed index: [undefined] when the index is not an
    integer inside the array. *)
Definition atIndex (times : list Qc) (i : option Z) : option Qc :=
  match i with
  | Some z => if (z <? 0)%Z then None else times !! Z.to_nat z
  | None => None
  end.

(** [v || 0] on a number or [undefined]. *)
Definition orZero (v : option Qc) : Qc :=
  match v with
  | Some x => if decide (x = 0) then 0 else x
  | None => 0
  end.

Definition Qcmin (a b : Qc) : Qc := if decide (a ≤ b) then a else b.
Definition Qcmax (a b : Qc) : Qc := if decide (a ≤ b) then b else a.

(** [Math.min(...times)] and [Math.max(...times)] on a non-empty array (on
    an empty one JavaScript answers with an infinity, which has no
    counterpart here; report generation never gets there). *)
Definition Math_min (times : list Qc) : Qc :=
  match times with
  | [] => 0
  | t :: ts => foldl Qcmin t ts
  end.

Definition Math_max (times : list Qc) : Qc :=
  match times with
  | [] => 0
  | t :: ts => foldl Qcmax t ts
  end.

(** ** Recommendations *)

Definition msgExcellent : string :=
  "🏆 EXCELLENT: Average response time under 50ms - world-class performance!".
Definition msgGood : string :=
  "✅ GOOD: Average response time under 100ms - great user experience".
Definition msgFair : string :=
  "⚠️  FAIR: Consider optimizing database queries and caching".
Definition msgNeedsImprovement : string :=
  "❌ NEEDS IMPROVEMENT: Response times over 200ms may impact user experience".
Definition msgP95Consistent : string :=
  "🚀 95% of requests served under 100ms - consistent performance".
Definition msgP95Good : string :=
  "📊 95th percentile under 200ms - good consistency".
Definition msgP95High : string :=
  "🔧 High P95 response time suggests performance bottlenecks".
Definition msgOutstanding : string :=
  "💪 OUTSTANDING: 99.9%+ success rate - extremely reliable".
Definition msgSuccessExcellent : string :=
  "✅ EXCELLENT: 99%+ success rate - very reliable".
Definition msgSuccessGood : string :=
  "⚠️  GOOD: 95%+ success rate - monitor error patterns".
Definition msgInvestigate : string :=
  "❌ INVESTIGATE: Success rate below 95% - check error logs".
Definition msgCambridge : string :=
  "🎓 CAMBRIDGE VALIDATION: Local-first architecture demonstrates superior performance".
Definition msgAdvantage : string :=
  "⚡ COMPETITIVE ADVANTAGE: 5-20x faster than typical cloud solutions".

Definition generateRecommendations (responseTimes : list Qc) (successRate : Qc)
  : list string :=
  let avgResponseTime := sumOf responseTimes / num (length responseTimes) in
  let p95ResponseTime :=
    orZero (atIndex responseTimes
              (Binary64.floorMul (length responseTimes) Binary64.c0_95)) in
  let recommendations : list string := [] in
  let recommendations :=
    recommendations ++
      [ if decide (avgResponseTime < dec 50 1) then msgExcellent
        else if decide (avgResponseTime < dec 100 1) then msgGood
        else if decide (avgResponseTime < dec 200 1) then msgFair
        else msgNeedsImprovement ] in
  let recommendations :=
    recommendations ++
      [ if decide (p95ResponseTime < dec 100 1) then msgP95Consistent
        else if decide (p95ResponseTime < dec 200 1) then msgP95Good
        else msgP95High ] in
  let recommendations :=
    recommendations ++
      [ if decide (dec 999 1000 ≤ successRate) then msgOutstanding
        else if decide (dec 99 100 ≤ successRate) then msgSuccessExcellent
        else if decide (dec 95 100 ≤ successRate) then msgSuccessGood
        else msgInvestigate ] in
  if decide (avgResponseTime < dec 100 1 ∧ dec 99 100 < successRate)
  then recommendations ++ [msgCambridge; msgAdvantage]
  else recommendations.

(** ** Report generation *)

Module Stats.
(** The per-endpoint accumulator [{ requests, responseTimes, successCount }]. *)
Record t := {
  requests : nat;
  responseTimes : list Qc;
  successCount : nat
}.

Definition empty : t :=
  {| requests := 0; responseTimes := []; successCount := 0 |}.

(** [stats.requests++; stats.responseTimes.push(time)] *)
Definition record (time : Qc) (s : t) : t :=
  {| requests := S (requests s);
     responseTimes := responseTimes s ++ [time];
     successCount := successCount s |}.

(** [stats.successCount++] *)
Definition succeed (s : t) : t :=
  {| requests := requests s;
     responseTimes := responseTimes s;
     successCount := S (successCount s) |}.
End Stats.

(** One iteration of [for (const result of this.results)]. *)
Definition collect (endpointStats : gmap string Stats.t) (result : PerformanceMetric)
  : gmap string Stats.t :=
  let endpointStats :=
    match endpointStats !! endpoint result with
    | None => <[endpoint result := Stats.empty]> endpointStats
    | Some _ => endpointStats
    end in
  let endpointStats :=
    alter (Stats.record (responseTime result)) (endpoint result) endpointStats in
  if isSuccessful result
  then alter Stats.succeed (endpoint result) endpointStats
  else endpointStats.

(** The body of [for (const [endpoint, stats] of Object.entries(endpointStats))]. *)
Definition breakdownOf (stats : Stats.t) : Breakdown.t :=
  let times := sortAscending (Stats.responseTimes stats) in
  let p95 := orZero (atIndex times (Binary64.floorMul (length times) Binary64.c0_95)) in
  {| Breakdown.requests := Stats.requests stats;
     Breakdown.avgResponseTime := sumOf times / num (length times);
     Breakdown.p95ResponseTime := p95;
     Breakdown.successRate :=
       num (Stats.successCount stats) / num (Stats.requests stats) * dec 100 1 |}.

Definition generateReport (results : list PerformanceMetric)
  : exn + PerformanceReport :=
  if decide (length results = 0%nat) then
    inl (Error "No test results available")
  else
    let successfulRequests := List.filter isSuccessful results in
    let responseTimes := sortAscending (map responseTime successfulRequests) in
    if decide (length responseTimes = 0%nat) then
      inl (Error "No successful requests for analysis")
    else
      let totalRequests := length results in
      let p50Index := Binary64.floorMul (length responseTimes) Binary64.c0_5 in
      let p95Index := Binary64.floorMul (length responseTimes) Binary64.c0_95 in
      let p99Index := Binary64.floorMul (length responseTimes) Binary64.c0_99 in
      let endpointStats := foldl collect ∅ results in
      let endpointBreakdown := breakdownOf <$> endpointStats in
      let successRate := num (length successfulRequests) / num totalRequests in
      let recommendations := generateRecommendations responseTimes successRate in
      inr {|
        summary := {|
          Summary.totalRequests := totalRequests;
          Summary.averageResponseTime :=
            sumOf responseTimes / num (length responseTimes);
          Summary.p50ResponseTime := orZero (atIndex responseTimes p50Index);
          Summary.p95ResponseTime := orZero (atIndex responseTimes p95Index);
          Summary.p99ResponseTime := orZero (atIndex responseTimes p99Index);
          Summary.minResponseTime := Math_min responseTimes;
          Summary.maxResponseTime := Math_max responseTimes;
          Summary.successRate := successRate * dec 100 1;
          Summary.errorRate :=
            num (totalRequests - length successfulRequests) / num totalRequests
            * dec 100 1
        |};
        endpointBreakdown := endpointBreakdown;
        timeSeriesData := results;
        recommendations := recommendations
      |}.

(** ** The world the suite runs in

    Every effect of the suite goes through one state: the monotonic clock
    read by [performance.now()], the wall clock behind [Date.now()], the
    network, the random source, standard output, and the [results] field of
    the test instance. *)

(** A response handed out by [fetch]: its status line, and what
    [response.text()] will do (how long the body transfer takes, and the
    body, or [None] when the transfer fails). *)
Record Response := {
  status : Z;
  textDelay : Qc;
  text : option string
}.

(** What one call of [fetch] does: it settles after [fetchDelay]
    milliseconds, with a response once the headers are in, or with a
    rejection ([None]) on a transport failure. *)
Record Exchange := {
  fetchDelay : Qc;
  fetched : option Response
}.

(** The progress line written to standard output. *)
Record ProgressLine := {
  percent : Qc;
  completed : nat;
  requested : nat;
  average : Qc
}.

Record World := {
  clock : Qc;
  timeOrigin : Z;
  network : nat → string → string → Exchange;
  fetches : nat;
  entropy : nat → Qc;
  draws : nat;
  stdout : list ProgressLine;
  results : list PerformanceMetric
}.

Definition elapse (d : Qc) (w : World) : World :=
  {| clock := clock w + d; timeOrigin := timeOrigin w; network := network w;
     fetches := fetches w; entropy := entropy w; draws := draws w;
     stdout := stdout w; results := results w |}.

Definition countFetch (w : World) : World :=
  {| clock := clock w; timeOrigin := timeOrigin w; network := network w;
     fetches := S (fetches w); entropy := entropy w; draws := draws w;
     stdout := stdout w; results := results w |}.

Definition countDraw (w : World) : World :=
  {| clock := clock w; timeOrigin := timeOrigin w; network := network w;
     fetches := fetches w; entropy := entropy w; draws := S (draws w);
     stdout := stdout w; results := results w |}.

Definition withStdout (out : list ProgressLine) (w : World) : World :=
  {| clock := clock w; timeOrigin := timeOrigin w; network := network w;
     fetches := fetches w; entropy := entropy w; draws := draws w;
     stdout := out; results := results w |}.

Definition withResults (rs : list PerformanceMetric) (w : World) : World :=
  {| clock := clock w; timeOrigin := timeOrigin w; network := network w;
     fetches := fetches w; entropy := entropy w; draws := draws w;
     stdout := stdout w; results := rs |}.

(** Computations that read and change the world and may throw. *)
Definition M (A : Type) : Type := World → (exn + A) * World.

Global Instance M_ret : MRet M := λ A a w, (inr a, w).

Global Instance M_bind : MBind M := λ A B f m w,
  match m w with
  | (inr a, w') => f a w'
  | (inl e, w') => (inl e, w')
  end.

Definition throw {A} (e : exn) : M A := λ w, (inl e, w).

(** [try { body } catch (error) { handler }] *)
Definition tryCatch {A} (body : M A) (handler : exn → M A) : M A := λ w,
  match body w with
  | (inl e, w') => handler e w'
  | (inr a, w') => (inr a, w')
  end.

Definition performance_now : M Qc := λ w, (inr (clock w), w).

Definition Date_now : M Z := λ w, (inr (timeOrigin w + Qfloor (clock w))%Z, w).

Definition fetch (url method : string) : M Response := λ w,
  let x := network w (fetches w) url method in
  let w' := elapse (fetchDelay x) (countFetch w) in
  match fetched x with
  | Some response => (inr response, w')
  | None => (inl (TypeError "fetch failed"), w')
  end.

Definition response_text (response : Response) : M string := λ w,
  let w' := elapse (textDelay response) w in
  match text response with
  | Some content => (inr content, w')
  | None => (inl (TypeError "error reading the body"), w')
  end.

Definition Math_random : M Qc := λ w, (inr (entropy w (draws w)), countDraw w).

(** [await new Promise(resolve => setTimeout(resolve, ms))] *)
Definition sleep (ms : Qc) : M unit := λ w, (inr (), elapse ms w).

Definition stdout_write (line : ProgressLine) : M unit := λ w,
  (inr (), withStdout (stdout w ++ [line]) w).

Definition getResults : M (list PerformanceMetric) := λ w, (inr (results w), w).

Definition setResults (rs : list PerformanceMetric) : M unit := λ w,
  (inr (), withResults rs w).

(** [this.results.push(result)] *)
Definition pushResult (result : PerformanceMetric) : M unit := λ w,
  (inr (), withResults (results w ++ [result]) w).

(** ** The request prober *)

Definition testSingleRequest (baseUrl endpoint method : string)
  : M PerformanceMetric :=
  startTime ← performance_now;
  tryCatch
    (response ← fetch (baseUrl +:+ endpoint) method;
     endTime ← performance_now;
     let responseTime := endTime - startTime in
     content ← response_text response;
     let contentLength := String.length content in
     now ← Date_now;
     mret {| endpoint := endpoint;
             method := method;
             responseTime := responseTime;
             statusCode := status response;
             contentLength := contentLength;
             timestamp := now |})
    (λ error,
     endTime ← performance_now;
     now ← Date_now;
     mret {| endpoint := endpoint;
             method := method;
             responseTime := endTime - startTime;
             statusCode := 0;
             contentLength := 0;
             timestamp := now |}).

(** ** Endpoint catalog and weighted selection *)

Module Endpoint.
Record t := {
  path : string;
  method : string;
  weight : Z;
  description : string
}.
End Endpoint.

Definition getTestEndpoints : list Endpoint.t := [
  {| Endpoint.path := "/"; Endpoint.method := "GET"; Endpoint.weight := 20;
     Endpoint.description := "Home page (Static)" |};
  {| Endpoint.path := "/api/analytics"; Endpoint.method := "GET"; Endpoint.weight := 15;
     Endpoint.description := "Analytics data" |};
  {| Endpoint.path := "/api/blogs"; Endpoint.method := "GET"; Endpoint.weight := 15;
     Endpoint.description := "Blog content API" |};
  {| Endpoint.path := "/api/projects"; Endpoint.method := "GET"; Endpoint.weight := 15;
     Endpoint.description := "Projects portfolio API" |};
  {| Endpoint.path := "/api/settings"; Endpoint.method := "GET"; Endpoint.weight := 15;
     Endpoint.description := "Settings API" |};
  {| Endpoint.path := "/api/roadmap"; Endpoint.method := "GET"; Endpoint.weight := 10;
     Endpoint.description := "Product roadmap API" |};
  {| Endpoint.path := "/api/system"; Endpoint.method := "GET"; Endpoint.weight := 3;
     Endpoint.description := "System information" |};
  {| Endpoint.path := "/api/appointments"; Endpoint.method := "GET"; Endpoint.weight := 6;
     Endpoint.description := "Appointments API (Protected)" |};
  {| Endpoint.path := "/api/contact"; Endpoint.method := "GET"; Endpoint.weight := 4;
     Endpoint.description := "Contact form API (Protected)" |};
  {| Endpoint.path := "/health"; Endpoint.method := "GET"; Endpoint.weight := 10;
     Endpoint.description := "Health check endpoint" |}
].

(** [endpoints.reduce((sum, ep) => sum + ep.weight, 0)] *)
Definition totalWeightOf (endpoints : list Endpoint.t) : Z :=
  foldl (λ sum ep, sum + Endpoint.weight ep)%Z 0%Z endpoints.

(** The loop [for (const endpoint of endpoints)] of the selector; [random] is
    the remainder of the draw on entry. *)
Fixpoint walk (random : Qc) (endpoints : list Endpoint.t) : option Endpoint.t :=
  match endpoints with
  | [] => None
  | endpoint :: rest =>
      let random := random - Qc_of_Z (Endpoint.weight endpoint) in
      if decide (random ≤ 0) then Some endpoint else walk random rest
  end.

(** The walk followed by [return endpoints[0]]; on an empty array the
    fallback reads [undefined]. *)
Definition selectWeighted (endpoints : list Endpoint.t) (random : Qc)
  : option Endpoint.t :=
  match walk random endpoints with
  | Some endpoint => Some endpoint
  | None => head endpoints
  end.

Definition selectRandomEndpoint : M (option Endpoint.t) :=
  let endpoints := getTestEndpoints in
  let totalWeight := totalWeightOf endpoints in
  r ← Math_random;
  let random := r * Qc_of_Z totalWeight in
  mret (selectWeighted endpoints random).

(** ** The fixed-count sequential benchmark

    The banner lines printed with [console.log] are left out; the progress
    lines written with [process.stdout.write] are kept. *)

Fixpoint forEach (indices : list nat) (body : nat → M unit) : M unit :=
  match indices with
  | [] => mret ()
  | i :: rest => _ ← body i; forEach rest body
  end.

(** [Math.max(1, Math.floor(requests / 10))] *)
Definition progressIntervalOf (requests : nat) : nat := Nat.max 1 (requests / 10).

Definition benchmarkIteration (baseUrl : string) (requests progressInterval i : nat)
  : M unit :=
  selected ← selectRandomEndpoint;
  match selected with
  | None => throw (TypeError "Cannot read properties of undefined (reading 'path')")
  | Some endpoint =>
      result ← testSingleRequest baseUrl (Endpoint.path endpoint) (Endpoint.method endpoint);
      _ ← pushResult result;
      _ ← (if decide (((i + 1) mod progressInterval)%nat = 0%nat) then
             rs ← getResults;
             let progress := num (i + 1) / num requests * dec 100 1 in
             let avgTime := sumOf (map responseTime rs) / num (length rs) in
             stdout_write {| percent := progress; completed := (i + 1)%nat;
                             requested := requests; average := avgTime |}
           else mret ());
      sleep (dec 10 1)
  end.

Definition runQuickBenchmark (baseUrl : string) (requests : nat)
  : M PerformanceReport :=
  _ ← setResults [];
  let progressInterval := progressIntervalOf requests in
  _ ← forEach (seq 0 requests) (benchmarkIteration baseUrl requests progressInterval);
  rs ← getResults;
  match generateReport rs with
  | inl e => throw e
  | inr report => mret report
  end.

(** ** Vocabulary of the statements *)

(** The successful subset of a result set, and its response times in
    ascending order. *)
Definition successfulOf (results : list PerformanceMetric) : list PerformanceMetric :=
  List.filter isSuccessful results.

Definition successfulTimes (results : list PerformanceMetric) : list Qc :=
  sortAscending (map responseTime (successfulOf results)).

(** JavaScript arrays hold fewer than [2^32] elements. *)
Definition arrayLength (n : nat) : Prop := (Z.of_nat n < 2 ^ 32)%Z.


(** The index [floor(n * p)] of the nearest-rank rule, in exact arithmetic. *)
Definition nearestRank (n : nat) (p : Qc) : nat := Z.to_nat (Qfloor (num n * p)).

(** ** Sample inputs *)

Definition sample (endpoint : string) (statusCode : Z) (ms : Z) : PerformanceMetric :=
  {| endpoint := endpoint; method := "GET"; responseTime := dec ms 1;
     statusCode := statusCode; contentLength := 0; timestamp := 0 |}.

(** Five successful samples with times 10, 20, 30, 40 and 50 ms out of
    order, and one failure. *)
Definition mixedResults : list PerformanceMetric :=
  [ sample "/" 200 30; sample "/api/blogs" 200 10; sample "/" 500 99;
    sample "/" 200 50; sample "/api/blogs" 200 20; sample "/" 302 40 ].

(** Eight successes and two failures, 10 ms each, on one endpoint. *)
Definition eightOfTen : list PerformanceMetric :=
  replicate 8 (sample "/" 200 10) ++ replicate 2 (sample "/" 500 10).

(** The samples of one endpoint path, whatever their method. *)
Definition groupOf (path : string) (results : list PerformanceMetric)
  : list PerformanceMetric :=
  List.filter (λ r, bool_decide (endpoint r = path)) results.



(** What one sample does to the accumulator of its endpoint. *)
Definition bump (result : PerformanceMetric) (s : Stats.t) : Stats.t :=
  (if isSuccessful result then Stats.succeed else id)
    (Stats.record (responseTime result) s).


(** ** The recommendation ladders in the words of the specification

    Three first-match ladders, on the mean response time in milliseconds, on
    the p95 in milliseconds and on the success rate in percent, and the two
    affirming messages. *)

Definition meanBand (mean : Qc) : string :=
  if decide (mean < dec 50 1) then msgExcellent
  else if decide (mean < dec 100 1) then msgGood
  else if decide (mean < dec 200 1) then msgFair
  else msgNeedsImprovement.

Definition p95Band (p95 : Qc) : string :=
  if decide (p95 < dec 100 1) then msgP95Consistent
  else if decide (p95 < dec 200 1) then msgP95Good
  else msgP95High.

Definition successBand (percent : Qc) : string :=
  if decide (dec 999 10 ≤ percent) then msgOutstanding
  else if decide (dec 99 1 ≤ percent) then msgSuccessExcellent
  else if decide (dec 95 1 ≤ percent) then msgSuccessGood
  else msgInvestigate.

Definition affirmations (mean percent : Qc) : list string :=
  if decide (mean < dec 100 1 ∧ dec 99 1 < percent)
  then [msgCambridge; msgAdvantage]
  else [].

Definition recommendationLadder (mean p95 percent : Qc) : list string :=
  [meanBand mean; p95Band p95; successBand percent] ++ affirmations mean percent.

(** The running remainder of the draw after the entries of [walked] have
    been subtracted ([random -= endpoint.weight] once per entry). *)
Definition remainderAfter (random : Qc) (walked : list Endpoint.t) : Qc :=
  foldl (λ r ep, r - Qc_of_Z (Endpoint.weight ep)) random walked.

(** What the network does to the request a probe is about to send. *)
Definition nextExchange (w : World) (baseUrl path verb : string) : Exchange :=
  network w (fetches w) (baseUrl +:+ path) verb.

(** A transport-level failure: [fetch] rejects, or the body transfer does. *)
Definition transportFails (x : Exchange) : Prop :=
  fetched x = None ∨ ∃ response, fetched x = Some response ∧ text response = None.

(** A world in which every request is answered with status 200 after 5 ms
    and its five-character body arrives 20 ms later. *)
Definition steadyWorld : World :=
  {| clock := 0;
     timeOrigin := 1700000000000;
     network := λ _ _ _,
       {| fetchDelay := dec 5 1;
          fetched := Some {| status := 200; textDelay := dec 20 1;
                             text := Some "hello" |} |};
     fetches := 0;
     entropy := λ k, dec (Z.of_nat (k * 37 mod 100)) 100;
     draws := 0;
     stdout := [];
     results := [] |}.

(** A world in which no connection can be made: every [fetch] rejects
    after 3 ms. *)
Definition deadWorld : World :=
  {| clock := 0;
     timeOrigin := 1700000000000;
     network := λ _ _ _, {| fetchDelay := dec 3 1; fetched := None |};
     fetches := 0;
     entropy := λ k, dec (Z.of_nat (k * 37 mod 100)) 100;
     draws := 0;
     stdout := [];
     results := [] |}.

(** [ceil(a / b)] on natural numbers. *)
Definition ceilDiv (a b : nat) : nat := ((a + b - 1) / b)%nat.

(** The 1-based iterations at which a run wrote a progress line. *)
Definition progressAt (lines : list ProgressLine) : list nat := map completed lines.

(** The multiples of [interval] among the iterations [1 .. requests]. *)
Definition multiplesOf (interval requests : nat) : list nat :=
  List.filter (λ k, (k mod interval =? 0)%nat) (seq 1 requests).

(** ** The rest of the suite

    The constructor, the validation run, the monitor, one simulated user of
    the load test and the pieces of the report display that compute
    something. *)

(** [baseUrl.replace(/\/$/, '')] in the constructor: one slash at the very
    end of the string is removed. *)
Fixpoint removeTrailingSlash (baseUrl : string) : string :=
  match baseUrl with
  | EmptyString => EmptyString
  | String c EmptyString => if decide (baseUrl = "/") then EmptyString else baseUrl
  | String c rest => String c (removeTrailingSlash rest)
  end.

(** The catalog of the validation run, a literal in [runCambridgeValidation]. *)
Definition cambridgeHome : Endpoint.t :=
  {| Endpoint.path := "/"; Endpoint.method := "GET"; Endpoint.weight := 20;
     Endpoint.description := "Home page" |}.

Definition cambridgeEndpoints : list Endpoint.t := [
  cambridgeHome;
  {| Endpoint.path := "/api/analytics"; Endpoint.method := "GET"; Endpoint.weight := 15;
     Endpoint.description := "Analytics API" |};
  {| Endpoint.path := "/api/blogs"; Endpoint.method := "GET"; Endpoint.weight := 15;
     Endpoint.description := "Blog API" |};
  {| Endpoint.path := "/api/projects"; Endpoint.method := "GET"; Endpoint.weight := 15;
     Endpoint.description := "Projects API" |};
  {| Endpoint.path := "/api/roadmap"; Endpoint.method := "GET"; Endpoint.weight := 10;
     Endpoint.description := "Roadmap API" |};
  {| Endpoint.path := "/health"; Endpoint.method := "GET"; Endpoint.weight := 10;
     Endpoint.description := "Health check endpoint" |}
].

(** The selection loop written out in [runCambridgeValidation]:
    [selectedEndpoint] starts as the first entry and is replaced, with a
    [break], at the first entry that brings the remainder to zero or below. *)
Fixpoint selectInline (random : Qc) (selectedEndpoint : Endpoint.t)
    (endpoints : list Endpoint.t) : Endpoint.t :=
  match endpoints with
  | [] => selectedEndpoint
  | endpoint :: rest =>
      let random := random - Qc_of_Z (Endpoint.weight endpoint) in
      if decide (random ≤ 0) then endpoint
      else selectInline random selectedEndpoint rest
  end.

Definition cambridgeIteration (baseUrl : string) (requests progressInterval i : nat)
  : M unit :=
  let totalWeight := totalWeightOf cambridgeEndpoints in
  r ← Math_random;
  let random := r * Qc_of_Z totalWeight in
  let selectedEndpoint := selectInline random cambridgeHome cambridgeEndpoints in
  result ← testSingleRequest baseUrl (Endpoint.path selectedEndpoint)
             (Endpoint.method selectedEndpoint);
  _ ← pushResult result;
  _ ← (if decide (((i + 1) mod progressInterval)%nat = 0%nat) then
         rs ← getResults;
         let progress := num (i + 1) / num requests * dec 100 1 in
         let avgTime := sumOf (map responseTime rs) / num (length rs) in
         stdout_write {| percent := progress; completed := (i + 1)%nat;
                         requested := requests; average := avgTime |}
       else mret ());
  sleep (dec 10 1).

Definition runCambridgeValidation (baseUrl : string) (requests : nat)
  : M PerformanceReport :=
  _ ← setResults [];
  let progressInterval := progressIntervalOf requests in
  _ ← forEach (seq 0 requests) (cambridgeIteration baseUrl requests progressInterval);
  rs ← getResults;
  match generateReport rs with
  | inl e => throw e
  | inr report => mret report
  end.

(** A network whose exchanges take no negative time. *)
Definition delaysNonNegative (x : Exchange) : Prop :=
  0 ≤ fetchDelay x ∧ ∀ response, fetched x = Some response → 0 ≤ textDelay response.

Definition causal (w : World) : Prop :=
  ∀ k url verb, delaysNonNegative (network w k url verb).

(** What a step leaves alone: the network, the random source and the origin
    of the wall clock. *)
Definition sameEnvironment (w w' : World) : Prop :=
  network w' = network w ∧ entropy w' = entropy w ∧ timeOrigin w' = timeOrigin w.

(** The part of a benchmark iteration after the endpoint has been chosen. *)
Definition probeAndReport (baseUrl : string) (requests progressInterval i : nat)
    (chosen : Endpoint.t) : M unit :=
  result ← testSingleRequest baseUrl (Endpoint.path chosen) (Endpoint.method chosen);
  _ ← pushResult result;
  _ ← (if decide (((i + 1) mod progressInterval)%nat = 0%nat) then
         rs ← getResults;
         let progress := num (i + 1) / num requests * dec 100 1 in
         let avgTime := sumOf (map responseTime rs) / num (length rs) in
         stdout_write {| percent := progress; completed := (i + 1)%nat;
                         requested := requests; average := avgTime |}
       else mret ());
  sleep (dec 10 1).

(** The progress line an iteration writes, if it writes one. *)
Definition progressLineOf (requests i : nat) (rs : list PerformanceMetric)
  : ProgressLine :=
  {| percent := num (i + 1) / num requests * dec 100 1;
     completed := (i + 1)%nat;
     requested := requests;
     average := sumOf (map responseTime rs) / num (length rs) |}.

(** What one iteration of a fixed-count run does to the world, with the
    endpoint taken from [catalog]. *)
Definition stepEffect (catalog : list Endpoint.t) (requests interval i : nat)
    (w w' : World) : Prop :=
  ∃ sample chosen,
    results w' = results w ++ [sample] ∧
    chosen ∈ catalog ∧
    endpoint sample = Endpoint.path chosen ∧
    method sample = Endpoint.method chosen ∧
    fetches w' = S (fetches w) ∧ draws w' = S (draws w) ∧
    sameEnvironment w w' ∧
    stdout w' = stdout w ++
      (if decide (((i + 1) mod interval)%nat = 0%nat)
       then [progressLineOf requests i (results w')] else []) ∧
    (causal w → clock w + dec 10 1 ≤ clock w').

(** What the iterations [start .. start + len - 1] do together. *)
Definition loopEffect (catalog : list Endpoint.t) (requests interval start len : nat)
    (w w' : World) : Prop :=
  ∃ samples,
    results w' = results w ++ samples ∧
    length samples = len ∧
    (∀ r, r ∈ samples →
       ∃ chosen, chosen ∈ catalog ∧ endpoint r = Endpoint.path chosen ∧
                 method r = Endpoint.method chosen) ∧
    fetches w' = (fetches w + len)%nat ∧ draws w' = (draws w + len)%nat ∧
    sameEnvironment w w' ∧
    stdout w' = stdout w ++
      map (λ k, progressLineOf requests (k - 1) (take k (results w')))
          (List.filter (λ k, (k mod interval =? 0)%nat) (seq (S start) len)) ∧
    (causal w → clock w + num len * dec 10 1 ≤ clock w').

(** The URL a probe of an instance constructed with [baseUrl] asks for: the
    constructor's [this.baseUrl] followed by the endpoint path. *)
Definition requestUrl (baseUrl path : string) : string :=
  removeTrailingSlash baseUrl +:+ path.

(** *** The report display

    [displayReport] prints; two of its expressions compute: the endpoint
    column of the breakdown table and the three verdicts of the validation
    section.  String lengths are counted in characters of one byte, which is
    what catalog paths are made of. *)

Fixpoint spaces (n : nat) : string :=
  match n with
  | O => EmptyString
  | S n' => String Ascii.Space (spaces n')
  end.

(** [s.padEnd(n)] *)
Definition padEnd (n : nat) (s : string) : string :=
  s +:+ spaces (n - String.length s).

(** [endpoint.length > 26 ? endpoint.substring(0, 23) + '...' : endpoint.padEnd(26)] *)
Definition endpointDisplay (endpoint : string) : string :=
  if decide (26 < String.length endpoint)%nat
  then String.substring 0 23 endpoint +:+ "..."
  else padEnd 26 endpoint.

Definition verdictFramework (report : PerformanceReport) : string :=
  if decide (Summary.averageResponseTime (summary report) < dec 100 1)
  then "SUB-100MS VALIDATED ✅" else "ABOVE 100MS ⚠️".

Definition verdictLocalFirst (report : PerformanceReport) : string :=
  if decide (Summary.averageResponseTime (summary report) < dec 200 1)
  then "5-20X FASTER THAN CLOUD ✅" else "COMPETITIVE WITH CLOUD".

Definition verdictProduction (report : PerformanceReport) : string :=
  if decide (dec 99 1 < Summary.successRate (summary report))
  then "ENTERPRISE GRADE ✅" else "DEVELOPMENT GRADE".

(** The lines of the validation section, after its heading and rule. *)
Definition cambridgeValidationData (report : PerformanceReport) : list string :=
  [ "📊 Framework Performance: " +:+ verdictFramework report;
    "🏆 Local-First Superiority: " +:+ verdictLocalFirst report;
    "⚡ Production Ready: " +:+ verdictProduction report;
    "🎯 Academic Evidence: EMPIRICAL VALIDATION COMPLETE ✅" ].

(** *** Real-time monitoring *)

(** [monitoringResults.slice(-10)] *)
Definition lastTen {A} (l : list A) : list A := drop (length l - 10) l.

(** The status line of one monitoring iteration (its clock time left out):
    the mark, the endpoint's description, the response time of the probe,
    and the rolling average and success rate. *)
Record MonitorLine := {
  succeeded : bool;
  described : string;
  lastResponseTime : Qc;
  rollingAverage : Qc;
  rollingSuccessRate : Qc
}.

(** The body of [while (true)] in [monitoringLoop]; the buffer
    [monitoringResults] is local to [startRealTimeMonitoring], so it is
    passed in and handed back, together with the line printed.  The
    interval is a whole number of seconds, as the command line parses it
    with [parseInt]. *)
Definition monitoringIteration (baseUrl : string) (intervalSeconds : Z)
    (monitoringResults : list PerformanceMetric)
  : M (list PerformanceMetric * MonitorLine) :=
  startTime ← Date_now;
  selected ← selectRandomEndpoint;
  match selected with
  | None => throw (TypeError "Cannot read properties of undefined (reading 'path')")
  | Some endpoint =>
      result ← testSingleRequest baseUrl (Endpoint.path endpoint) (Endpoint.method endpoint);
      let monitoringResults := monitoringResults ++ [result] in
      let recent := lastTen monitoringResults in
      let avgResponseTime := sumOf (map responseTime recent) / num (length recent) in
      let successRate :=
        num (length (List.filter isSuccessful recent)) / num (length recent)
        * dec 100 1 in
      let line := {| succeeded := isSuccessful result;
                     described := Endpoint.description endpoint;
                     lastResponseTime := responseTime result;
                     rollingAverage := avgResponseTime;
                     rollingSuccessRate := successRate |} in
      now ← Date_now;
      let elapsed := (now - startTime)%Z in
      let delay := Z.max 0 (intervalSeconds * 1000 - elapsed) in
      _ ← sleep (Qc_of_Z delay);
      mret (monitoringResults, line)
  end.

(** The first [iterations] rounds of the loop, which by itself never ends. *)
Fixpoint monitoringLoop (iterations : nat) (baseUrl : string) (intervalSeconds : Z)
    (monitoringResults : list PerformanceMetric)
  : M (list PerformanceMetric * list MonitorLine) :=
  match iterations with
  | O => mret (monitoringResults, [])
  | S n =>
      '(monitoringResults, line) ← monitoringIteration baseUrl intervalSeconds
                                     monitoringResults;
      '(monitoringResults, lines) ← monitoringLoop n baseUrl intervalSeconds
                                      monitoringResults;
      mret (monitoringResults, line :: lines)
  end.


(** What [Date.now()] reads in [w]. *)
Definition wallClock (w : World) : Z := (timeOrigin w + Qfloor (clock w))%Z.

(** The time an exchange takes: until [fetch] settles and, if it resolves,
    until the body has been read or its transfer has failed. *)
Definition exchangeTime (x : Exchange) : Qc :=
  fetchDelay x + match fetched x with
                 | Some response => textDelay response
                 | None => 0
                 end.

Definition answersWithin (ms : Z) (w : World) : Prop :=
  ∀ k url verb, exchangeTime (network w k url verb) ≤ Qc_of_Z ms.

(** The rolling figures of a status line, over the window [recent]. *)
Definition rollingAverageOf (recent : list PerformanceMetric) : Qc :=
  sumOf (map responseTime recent) / num (length recent).

Definition rollingSuccessRateOf (recent : list PerformanceMetric) : Qc :=
  num (length (List.filter isSuccessful recent)) / num (length recent) * dec 100 1.

Definition fromCatalog (catalog : list Endpoint.t) (r : PerformanceMetric) : Prop :=
  ∃ chosen, chosen ∈ catalog ∧
    endpoint r = Endpoint.path chosen ∧ method r = Endpoint.method chosen.

(** *** One simulated user of the load test

    [simulateUser] is modelled as it runs when nothing else is scheduled
    between its steps.  Its progress line has another shape than that of the
    fixed-count runs, [Progress: p% (n requests) - Avg: t ms], so the lines
    written are returned, in order, next to the final [requestCount]. *)
Record LoadLine := {
  progress : Qc;
  processed : nat;
  averageTime : Qc
}.

(** The body of [while (Date.now() < endTime)]. *)
Definition simulateUserIteration (baseUrl : string) (endTime : Z) (userId requestCount : nat)
  : M (nat * list LoadLine) :=
  selected ← selectRandomEndpoint;
  tryCatch
    (match selected with
     | None => throw (TypeError "Cannot read properties of undefined (reading 'path')")
     | Some endpoint =>
         result ← testSingleRequest baseUrl (Endpoint.path endpoint) (Endpoint.method endpoint);
         _ ← pushResult result;
         let requestCount := S requestCount in
         lines ← (if decide (userId = 0%nat ∧ (requestCount mod 5)%nat = 0%nat) then
                    now ← Date_now;
                    let elapsed := Qc_of_Z (now - (endTime - 60000)) / dec 1000 1 in
                    let progress := Math_min [dec 100 1; elapsed / dec 60 1 * dec 100 1] in
                    rs ← getResults;
                    let avgTime :=
                      if decide (0 < length rs)%nat
                      then sumOf (map responseTime rs) / num (length rs)
                      else 0 in
                    mret [ {| progress := progress; processed := length rs;
                              averageTime := avgTime |} ]
                  else mret []);
         r ← Math_random;
         let delay := dec 500 1 + r * dec 1500 1 in
         _ ← sleep delay;
         mret (requestCount, lines)
     end)
    (λ error, mret (requestCount, [])).

(** The loop, cut off after [fuel] rounds: [None] says that the deadline
    had not been reached when the fuel ran out. *)
Fixpoint simulateUser (fuel : nat) (baseUrl : string) (endTime : Z)
    (userId requestCount : nat) : M (option (nat * list LoadLine)) :=
  now ← Date_now;
  if decide (now < endTime)%Z then
    match fuel with
    | O => mret None
    | S fuel' =>
        '(requestCount, lines) ← simulateUserIteration baseUrl endTime userId requestCount;
        rest ← simulateUser fuel' baseUrl endTime userId requestCount;
        mret (match rest with
              | Some (requestCount, more) => Some (requestCount, lines ++ more)
              | None => None
              end)
    end
  else mret (Some (requestCount, [])).

(** [Math.random()] answers in [[0, 1)]. *)
Definition unitInterval (w : World) : Prop :=
  ∀ k, 0 ≤ entropy w k ∧ entropy w k < 1.

(** The rounds a user can need at most from [w] to the deadline: one per
    started half second. *)
Definition roundsUntil (endTime : Z) (w : World) : nat :=
  Z.to_nat ((endTime - wallClock w + 499) / 500).

(** * Properties *)

(** ** Binary64: the index [Math.floor(n * c)] in exact arithmetic *)

Module Binary64Facts.
Import Binary64.
Local Open Scope Z_scope.

Lemma iter_pos_nat {A} (f : A → A) (p : positive) (x : A) :
  SpecFloat.iter_pos f p x = Nat.iter (Pos.to_nat p) f x.
Proof.
  revert x. induction p as [p IH|p IH|]; intros x.
  - rewrite Pos2Nat.inj_xI. cbn [SpecFloat.iter_pos]. rewrite !IH.
    replace (S (2 * Pos.to_nat p))%nat
      with (Pos.to_nat p + S (Pos.to_nat p))%nat by lia.
    rewrite Nat.iter_add, Nat.iter_succ_r. reflexivity.
  - rewrite Pos2Nat.inj_xO. cbn [SpecFloat.iter_pos]. rewrite !IH.
    replace (2 * Pos.to_nat p)%nat with (Pos.to_nat p + Pos.to_nat p)%nat by lia.
    rewrite Nat.iter_add. reflexivity.
  - reflexivity.
Qed.

Lemma shr_1_inv m k mrs : shr_inv m k mrs → shr_inv m (S k) (shr_1 mrs).
Proof.
  destruct mrs as [mk r s]. unfold shr_inv. cbn [shr_m shr_r shr_s].
  intros [Hm [R [HR Hloc]]].
  rewrite Nat2Z.inj_succ, Z.pow_succ_r by lia.
  assert (0 < 2 ^ Z.of_nat k) by (apply Z.pow_pos_nonneg; lia).
  set (X := 2 ^ Z.of_nat k) in *.
  destruct mk as [|[p|p|]|p]; try lia; cbn [shr_1 shr_m shr_r shr_s].
  - split; [lia|]. exists R. split; [lia|]. destruct r, s; cbn [orb]; lia.
  - split; [lia|]. exists (X + R). split; [lia|]. destruct r, s; cbn [orb]; lia.
  - split; [lia|]. exists R. split; [lia|]. destruct r, s; cbn [orb]; lia.
  - split; [lia|]. exists (X + R). split; [lia|]. destruct r, s; cbn [orb]; lia.
Qed.

Lemma shr_iter_inv m k :
  0 <= m → shr_inv m k (Nat.iter k shr_1 (Build_shr_record m false false)).
Proof.
  intros Hm. induction k as [|k IH].
  - split; [simpl; lia|]. exists 0. simpl. lia.
  - simpl. apply shr_1_inv, IH.
Qed.

(** Rounding to nearest even lands within half a unit of the mantissa that
    was shifted. *)
Lemma rne_inv m k mrs :
  shr_inv m k mrs →
  let m' := round_nearest_even (shr_m mrs) (loc_of_shr_record mrs) in
  shr_m mrs <= m' <= shr_m mrs + 1 ∧
  2 * Z.abs (m' * 2 ^ Z.of_nat k - m) <= 2 ^ Z.of_nat k.
Proof.
  destruct mrs as [mk r s]. unfold shr_inv. cbn [shr_m shr_r shr_s].
  intros [Hm [R [HR Hloc]]].
  assert (0 < 2 ^ Z.of_nat k) by (apply Z.pow_pos_nonneg; lia).
  set (X := 2 ^ Z.of_nat k) in *.
  destruct r, s; cbn [loc_of_shr_record round_nearest_even];
    try destruct (Z.even mk); split; lia.
Qed.

Lemma digits2_pos_bounds p :
  2 ^ (Zpos (digits2_pos p) - 1) <= Zpos p < 2 ^ Zpos (digits2_pos p).
Proof.
  induction p as [p IH|p IH|]; cbn [digits2_pos].
  - rewrite Pos2Z.inj_succ.
    replace (Z.succ (Zpos (digits2_pos p)) - 1)
      with (Z.succ (Zpos (digits2_pos p) - 1)) by lia.
    rewrite !Z.pow_succ_r by lia. lia.
  - rewrite Pos2Z.inj_succ.
    replace (Z.succ (Zpos (digits2_pos p)) - 1)
      with (Z.succ (Zpos (digits2_pos p) - 1)) by lia.
    rewrite !Z.pow_succ_r by lia. lia.
  - simpl. lia.
Qed.

Lemma pow2_lt_inv a b : 0 <= b → 2 ^ a < 2 ^ b → a < b.
Proof.
  intros Hb H. destruct (Z_lt_le_dec a b) as [|Hge]; [assumption|].
  assert (2 ^ b <= 2 ^ a) by (apply Z.pow_le_mono_r; lia). lia.
Qed.

Lemma digits2_pos_unique p d :
  2 ^ (d - 1) <= Zpos p < 2 ^ d → Zpos (digits2_pos p) = d.
Proof.
  intros [Hlo Hhi]. pose proof (digits2_pos_bounds p) as [Blo Bhi].
  set (D := Zpos (digits2_pos p)) in *. assert (0 < D) by (unfold D; lia).
  destruct (Z.lt_trichotomy D d) as [Hlt|[Heq|Hgt]]; [|exact Heq|].
  - assert (2 ^ D <= 2 ^ (d - 1)) by (apply Z.pow_le_mono_r; lia). lia.
  - assert (d <= 0 ∨ 0 < d) as [Hd|Hd] by lia.
    + assert (2 ^ d <= 2 ^ 0) by (apply Z.pow_le_mono_r_iff; lia).
      simpl in *. lia.
    + assert (2 ^ d <= 2 ^ (D - 1)) by (apply Z.pow_le_mono_r; lia). lia.
Qed.

(** Rounding a product mantissa of more than 53 bits: the result is a
    normal double whose mantissa is within half a unit in the last place of
    the exact value. *)
Lemma binary_round_aux_spec (m : positive) (e : Z) :
  let D := Zpos (digits2_pos m) in
  let k := D - 53 in
  53 < D → -1074 <= D + e - 53 → D + e <= 1023 →
  ∃ m' e',
    binary_round_aux prec emax false (Zpos m) e loc_Exact = S754_finite false m' e' ∧
    (e' = e + k ∨ e' = e + k + 1) ∧
    2 ^ 52 <= Zpos m' < 2 ^ 53 ∧
    2 * Z.abs (Zpos m' * 2 ^ (e' - e) - Zpos m) <= 2 ^ k.
Proof.
  intros D k HD Hlo Hhi.
  pose proof (digits2_pos_bounds m) as Hm. fold D in Hm.
  unfold binary_round_aux, shr_fexp.
  cbn [Zdigits2 shr_record_of_loc]. fold D.
  assert (Hk : fexp prec emax (D + e) - e = k).
  { unfold fexp, emin, prec, emax, k. lia. }
  rewrite Hk.
  destruct k as [|kp|kp] eqn:Ek; try lia.
  cbn [shr]. rewrite iter_pos_nat.
  pose proof (shr_iter_inv (Zpos m) (Pos.to_nat kp) ltac:(lia)) as Hinv.
  set (mrs := Nat.iter (Pos.to_nat kp) shr_1 _) in *.
  pose proof (rne_inv _ _ _ Hinv) as [Hstep Hnear].
  destruct Hinv as [Hnn _].
  rewrite positive_nat_Z in Hnear.
  set (m2 := round_nearest_even (shr_m mrs) (loc_of_shr_record mrs)) in *.
  assert (HX : 0 < 2 ^ Zpos kp) by (apply Z.pow_pos_nonneg; lia).
  assert (HDk : D = Zpos kp + 53) by lia.
  assert (Hp1 : 2 ^ (D - 1) = 2 ^ 52 * 2 ^ Zpos kp).
  { replace (D - 1) with (52 + Zpos kp) by lia. rewrite Z.pow_add_r by lia. reflexivity. }
  assert (Hp2 : 2 ^ D = 2 ^ 53 * 2 ^ Zpos kp).
  { replace D with (53 + Zpos kp) at 1 by lia. rewrite Z.pow_add_r by lia. reflexivity. }
  rewrite Hp1, Hp2 in Hm.
  set (X := 2 ^ Zpos kp) in *.
  assert (Hm2 : 2 ^ 52 <= m2 <= 2 ^ 53) by nia.
  destruct m2 as [|p2|p2] eqn:Em2; try lia.
  cbn [Zdigits2].
  assert (p2 = 9007199254740992%positive ∨ Zpos p2 < 2 ^ 53) as [Hc|Hc] by lia.
  - (* the mantissa was rounded up to 2^53: one more shift *)
    subst p2.
    assert (Hs : fexp prec emax (Zpos (digits2_pos 9007199254740992) + (e + Zpos kp))
                 - (e + Zpos kp) = 1).
    { cbn [digits2_pos Pos.succ]. unfold fexp, emin, prec, emax. lia. }
    rewrite Hs. cbn [shr SpecFloat.iter_pos shr_1 shr_m].
    replace (e + Zpos kp + 1 <=? emax - prec) with true
      by (symmetry; apply Z.leb_le; unfold emax, prec; lia).
    eexists _, _. split; [reflexivity|]. split; [right; lia|].
    split; [lia|].
    replace (e + Zpos kp + 1 - e) with (Z.succ (Zpos kp)) by lia.
    rewrite Z.pow_succ_r by lia. fold X. lia.
  - assert (Hd : Zpos (digits2_pos p2) = 53) by (apply digits2_pos_unique; lia).
    rewrite Hd.
    assert (Hs : fexp prec emax (53 + (e + Zpos kp)) - (e + Zpos kp) = 0).
    { unfold fexp, emin, prec, emax. lia. }
    rewrite Hs. cbn [shr shr_m].
    replace (e + Zpos kp <=? emax - prec) with true
      by (symmetry; apply Z.leb_le; unfold emax, prec; lia).
    eexists _, _. split; [reflexivity|]. split; [left; lia|].
    split; [lia|].
    replace (e + Zpos kp - e) with (Zpos kp) by lia. fold X. lia.
Qed.

(** A mantissa of exactly 53 bits in range is kept as it is. *)
Lemma binary_round_aux_exact (m : positive) (e : Z) :
  Zpos (digits2_pos m) = 53 → -1074 <= e <= 971 →
  binary_round_aux prec emax false (Zpos m) e loc_Exact = S754_finite false m e.
Proof.
  intros Hd He. unfold binary_round_aux, shr_fexp.
  cbn [Zdigits2 shr_record_of_loc]. rewrite Hd.
  assert (Hs : fexp prec emax (53 + e) - e = 0).
  { unfold fexp, emin, prec, emax. lia. }
  rewrite Hs. cbn [shr shr_m loc_of_shr_record round_nearest_even Zdigits2].
  rewrite Hd, Hs. cbn [shr shr_m].
  replace (e <=? emax - prec) with true
    by (symmetry; apply Z.leb_le; unfold emax, prec; lia).
  reflexivity.
Qed.

Lemma iter_xO_spec p d : Zpos (Pos.iter xO p d) = Zpos p * 2 ^ Zpos d.
Proof.
  induction d as [|d IH] using Pos.peano_ind.
  - simpl. lia.
  - rewrite Pos.iter_succ, Pos2Z.inj_succ, Z.pow_succ_r by lia.
    rewrite Pos2Z.inj_xO, IH. lia.
Qed.

(** A positive integer of at most 53 bits converts exactly, with its
    mantissa shifted up to 53 bits. *)
Lemma of_pos_spec (n : positive) :
  let d := Zpos (digits2_pos n) in
  d <= 53 →
  ∃ mz, binary_normalize prec emax (Zpos n) 0 false = S754_finite false mz (d - 53) ∧
        Zpos mz = Zpos n * 2 ^ (53 - d).
Proof.
  intros d Hd. pose proof (digits2_pos_bounds n) as Hn. fold d in Hn.
  assert (0 < d) by (unfold d; lia).
  cbn [binary_normalize]. unfold binary_round. fold d.
  assert (Hf : fexp prec emax (d + 0) = d - 53).
  { unfold fexp, emin, prec, emax. lia. }
  rewrite Hf. unfold shl_align.
  destruct (d - 53 - 0) as [|q|q] eqn:Eq; try lia.
  - exists n. replace (d - 53) with 0 by lia. split.
    + apply binary_round_aux_exact; lia.
    + replace (53 - d) with 0 by lia. simpl. lia.
  - exists (Pos.iter xO n q).
    assert (Hq : Zpos q = 53 - d) by lia.
    assert (Hv : Zpos (Pos.iter xO n q) = Zpos n * 2 ^ (53 - d))
      by (rewrite iter_xO_spec, Hq; reflexivity).
    split; [|exact Hv].
    apply binary_round_aux_exact; [|lia].
    apply digits2_pos_unique. rewrite Hv.
    assert (0 < 2 ^ (53 - d)) by (apply Z.pow_pos_nonneg; lia).
    assert (E1 : 2 ^ 53 = 2 ^ d * 2 ^ (53 - d))
      by (rewrite <- Z.pow_add_r by lia; f_equal; lia).
    assert (E2 : 2 ^ (53 - 1) = 2 ^ (d - 1) * 2 ^ (53 - d))
      by (rewrite <- Z.pow_add_r by lia; f_equal; lia).
    rewrite E1, E2. nia.
Qed.

(** The product of an array length below [2^32] with a double [M * 2^-53]
    in [[1/2, 1)]: the rounded result [m' * 2^-E] is within half a unit in
    the last place of the exact product. *)
Lemma mul_of_pos_spec (n M : positive) :
  Zpos n < 2 ^ 32 → 2 ^ 52 <= Zpos M < 2 ^ 53 →
  ∃ m' E,
    SFmul prec emax (binary_normalize prec emax (Zpos n) 0 false)
          (S754_finite false M (-53)) = S754_finite false m' (- E) ∧
    20 <= E <= 53 ∧
    2 ^ 52 <= Zpos m' < 2 ^ 53 ∧
    - 2 ^ 53 <= 2 * (Zpos m' * 2 ^ 53 - Zpos n * Zpos M * 2 ^ E) <= 2 ^ 53.
Proof.
  intros Hn HM.
  pose proof (digits2_pos_bounds n) as Bn.
  set (d := Zpos (digits2_pos n)) in *.
  assert (Hd0 : 0 < d) by (unfold d; lia).
  assert (Hd : d <= 32).
  { assert (d - 1 < 32) by (apply pow2_lt_inv; lia). lia. }
  destruct (of_pos_spec n) as [mz [Hof Hmz]]; [fold d; lia|]. fold d in Hof, Hmz.
  rewrite Hof. cbn [SFmul xorb].
  set (Sh := 2 ^ (53 - d)) in *.
  assert (HSh : 0 < Sh) by (apply Z.pow_pos_nonneg; lia).
  assert (Bmz : 2 ^ 52 <= Zpos mz < 2 ^ 53).
  { assert (E1 : 2 ^ 53 = 2 ^ d * Sh)
      by (unfold Sh; rewrite <- Z.pow_add_r by lia; f_equal; lia).
    assert (E2 : 2 ^ 52 = 2 ^ (d - 1) * Sh)
      by (unfold Sh; rewrite <- Z.pow_add_r by lia; f_equal; lia).
    rewrite E1, E2, Hmz. nia. }
  pose proof (digits2_pos_bounds (mz * M)) as BP.
  set (D := Zpos (digits2_pos (mz * M))) in *.
  rewrite Pos2Z.inj_mul in BP.
  assert (HP : 2 ^ 104 <= Zpos mz * Zpos M < 2 ^ 106).
  { change (2 ^ 104) with (2 ^ 52 * 2 ^ 52).
    change (2 ^ 106) with (2 ^ 53 * 2 ^ 53). nia. }
  assert (HD : 105 <= D <= 106).
  { assert (0 < D) by (unfold D; lia).
    assert (104 < D) by (apply pow2_lt_inv; lia).
    assert (D - 1 < 106) by (apply pow2_lt_inv; lia). lia. }
  destruct (binary_round_aux_spec (mz * M) (d - 53 + -53))
    as [m' [e' [Hr [He' [Bm' Hnear]]]]]; fold D; try lia.
  fold D in He', Hnear.
  exists m', (- e'). rewrite Z.opp_involutive. split; [exact Hr|].
  split; [lia|]. split; [exact Bm'|].
  rewrite Pos2Z.inj_mul, Hmz in Hnear.
  set (W := 2 ^ (e' - (d - 53 + -53))) in *.
  set (T := 2 ^ (- e')).
  assert (HW : 0 < W) by (apply Z.pow_pos_nonneg; lia).
  assert (HT : 0 < T) by (apply Z.pow_pos_nonneg; lia).
  assert (HWT : W * T = 2 ^ 53 * Sh).
  { unfold W, T, Sh. rewrite <- !Z.pow_add_r by lia. f_equal. lia. }
  assert (HkW : 2 ^ (D - 53) <= W) by (apply Z.pow_le_mono_r; lia).
  set (x := Zpos m' * W - Zpos n * Sh * Zpos M) in *.
  assert (Hx : - W <= 2 * x <= W) by lia.
  assert (HxT : x * T = Sh * (Zpos m' * 2 ^ 53 - Zpos n * Zpos M * T)).
  { unfold x. replace ((Zpos m' * W - Zpos n * Sh * Zpos M) * T)
      with (Zpos m' * (W * T) - Zpos n * Sh * Zpos M * T) by ring.
    rewrite HWT. ring. }
  set (y := Zpos m' * 2 ^ 53 - Zpos n * Zpos M * T) in *.
  assert (H1 : (- W) * T <= (2 * x) * T) by (apply Z.mul_le_mono_nonneg_r; lia).
  assert (H2 : (2 * x) * T <= W * T) by (apply Z.mul_le_mono_nonneg_r; lia).
  assert (H3 : Sh * (- 2 ^ 53) <= Sh * (2 * y) <= Sh * 2 ^ 53) by lia.
  destruct H3 as [H3 H4].
  apply Z.mul_le_mono_pos_l in H3; [|exact HSh].
  apply Z.mul_le_mono_pos_l in H4; [|exact HSh].
  split; assumption.
Qed.

(** Enumerate the values of an integer known to lie in a short range. *)
Ltac enum_from E lo :=
  first
    [ assert (E = lo) as -> by lia
    | assert (E = lo ∨ lo < E) as [->|?] by lia;
      [ | let lo' := eval cbv in (lo + 1) in enum_from E lo' ] ].

Ltac eval_pow2 :=
  repeat match goal with
         | |- context [2 ^ ?e] =>
             let v := eval cbv in (2 ^ e) in change (2 ^ e) with v in *
         | H : context [2 ^ ?e] |- _ =>
             let v := eval cbv in (2 ^ e) in change (2 ^ e) with v in *
         end.

(** With the mantissa [M] of the constant given, split on the exponent of
    the rounded product and let linear arithmetic compare the two floors. *)
Ltac floorMul_exact M :=
  let Hn := fresh "Hn" in
  let p := fresh "p" in
  intros Hn; unfold floorMul, of_nat;
  match goal with
  | |- context [Z.of_nat ?n] =>
      pose proof (Nat2Z.is_nonneg n); destruct (Z.of_nat n) as [|p|p]; [ | | lia]
  end;
  [ reflexivity
  | let m' := fresh "m'" in let E := fresh "E" in
    let Hr := fresh "Hr" in let HE := fresh "HE" in
    let Bm := fresh "Bm" in let Hnear := fresh "Hnear" in
    destruct (mul_of_pos_spec p M Hn) as [m' [E [Hr [HE [Bm Hnear]]]]];
    [ cbv; split; [discriminate|reflexivity]
    | rewrite Hr; cbn [floor];
      replace (0 <=? - E) with false by (symmetry; apply Z.leb_gt; lia);
      rewrite Z.opp_involutive; f_equal;
      enum_from E 20; eval_pow2; Z.div_mod_to_equations; lia ] ].

Lemma c0_5_bits : c0_5 = S754_finite false 4503599627370496 (-53).
Proof. vm_compute. reflexivity. Qed.

Lemma c0_95_bits : c0_95 = S754_finite false 8556839292003942 (-53).
Proof. vm_compute. reflexivity. Qed.

Lemma c0_99_bits : c0_99 = S754_finite false 8917127262193582 (-53).
Proof. vm_compute. reflexivity. Qed.

Lemma floorMul_0_5_Z (n : nat) :
  Z.of_nat n < 2 ^ 32 → floorMul n c0_5 = Some (Z.of_nat n / 2).
Proof. rewrite c0_5_bits. floorMul_exact 4503599627370496%positive. Qed.

Lemma floorMul_0_95_Z (n : nat) :
  Z.of_nat n < 2 ^ 32 → floorMul n c0_95 = Some (Z.of_nat n * 95 / 100).
Proof. rewrite c0_95_bits. floorMul_exact 8556839292003942%positive. Qed.

Lemma floorMul_0_99_Z (n : nat) :
  Z.of_nat n < 2 ^ 32 → floorMul n c0_99 = Some (Z.of_nat n * 99 / 100).
Proof. rewrite c0_99_bits. floorMul_exact 8917127262193582%positive. Qed.

(** The same indices as natural numbers. *)
Lemma floorMul_0_5 (n : nat) :
  Z.of_nat n < 2 ^ 32 → floorMul n c0_5 = Some (Z.of_nat (n / 2)).
Proof.
  intros Hn. rewrite floorMul_0_5_Z by exact Hn.
  rewrite Nat2Z.inj_div. reflexivity.
Qed.

Lemma floorMul_0_95 (n : nat) :
  Z.of_nat n < 2 ^ 32 → floorMul n c0_95 = Some (Z.of_nat (n * 95 / 100)).
Proof.
  intros Hn. rewrite floorMul_0_95_Z by exact Hn.
  rewrite Nat2Z.inj_div, Nat2Z.inj_mul. reflexivity.
Qed.

Lemma floorMul_0_99 (n : nat) :
  Z.of_nat n < 2 ^ 32 → floorMul n c0_99 = Some (Z.of_nat (n * 99 / 100)).
Proof.
  intros Hn. rewrite floorMul_0_99_Z by exact Hn.
  rewrite Nat2Z.inj_div, Nat2Z.inj_mul. reflexivity.
Qed.

(** The indices of the five-element example, computed by the binary64 model
    itself. *)
Example floorMul_five :
  floorMul 5 c0_5 = Some 2 ∧ floorMul 5 c0_95 = Some 4 ∧ floorMul 5 c0_99 = Some 4.
Proof. vm_compute. auto. Qed.

(** The figures of the eight-of-ten scenario come out exact in binary64 as
    well: 8 / 10 * 100 is 80, 2 / 10 * 100 is 20, and eight times 10 summed
    from 0 and divided by 8 is 10. *)
Example eight_of_ten_binary64 :
  SFmul prec emax (SFdiv prec emax (of_nat 8) (of_nat 10)) (of_nat 100) = of_nat 80 ∧
  SFmul prec emax (SFdiv prec emax (of_nat 2) (of_nat 10)) (of_nat 100) = of_nat 20 ∧
  SFdiv prec emax
    (Nat.iter 8 (λ sum, SFadd prec emax sum (of_nat 10)) (of_nat 0)) (of_nat 8)
  = of_nat 10.
Proof. vm_compute. auto. Qed.

End Binary64Facts.

(** ** Arrays, sorting and percentile indices *)

Lemma orZero_Some (x : Qc) : orZero (Some x) = x.
Proof. unfold orZero. case_decide; congruence. Qed.

Lemma atIndex_nat (times : list Qc) (i : nat) :
  atIndex times (Some (Z.of_nat i)) = times !! i.
Proof.
  unfold atIndex.
  replace (Z.of_nat i <? 0)%Z with false by (symmetry; apply Z.ltb_ge; lia).
  rewrite Nat2Z.id. reflexivity.
Qed.

Lemma sortAscending_Permutation (times : list Qc) : sortAscending times ≡ₚ times.
Proof. apply merge_sort_Permutation. Qed.

Lemma sortAscending_Sorted (times : list Qc) : Sorted Qcle (sortAscending times).
Proof. apply (Sorted_merge_sort Qcle). Qed.

Lemma sortAscending_length (times : list Qc) :
  length (sortAscending times) = length times.
Proof. apply Permutation_length, sortAscending_Permutation. Qed.

Lemma sortAscending_elem_of (times : list Qc) (x : Qc) :
  x ∈ sortAscending times ↔ x ∈ times.
Proof. rewrite sortAscending_Permutation. reflexivity. Qed.

Lemma arrayLength_le (m n : nat) : (m ≤ n)%nat → arrayLength n → arrayLength m.
Proof. unfold arrayLength. lia. Qed.

(** On a non-empty array of admissible length, each percentile index is in
    bounds, so the element read is defined and [|| 0] hands it on. *)
Lemma percentile_0_5 (times : list Qc) :
  arrayLength (length times) → times ≠ [] →
  ∃ x, times !! (length times / 2)%nat = Some x ∧
       atIndex times (Binary64.floorMul (length times) Binary64.c0_5) = Some x ∧
       orZero (atIndex times (Binary64.floorMul (length times) Binary64.c0_5)) = x.
Proof.
  intros Hlen Hne.
  assert (Hpos : (0 < length times)%nat) by (destruct times; [done | simpl; lia]).
  destruct (lookup_lt_is_Some_2 times (length times / 2)%nat) as [x Hx].
  { apply Nat.div_lt; lia. }
  exists x. rewrite Binary64Facts.floorMul_0_5, atIndex_nat, Hx by exact Hlen.
  auto using orZero_Some.
Qed.

Lemma percentile_0_95 (times : list Qc) :
  arrayLength (length times) → times ≠ [] →
  ∃ x, times !! (length times * 95 / 100)%nat = Some x ∧
       atIndex times (Binary64.floorMul (length times) Binary64.c0_95) = Some x ∧
       orZero (atIndex times (Binary64.floorMul (length times) Binary64.c0_95)) = x.
Proof.
  intros Hlen Hne.
  assert (Hpos : (0 < length times)%nat) by (destruct times; [done | simpl; lia]).
  destruct (lookup_lt_is_Some_2 times (length times * 95 / 100)%nat) as [x Hx].
  { apply Nat.Div0.div_lt_upper_bound; lia. }
  exists x. rewrite Binary64Facts.floorMul_0_95, atIndex_nat, Hx by exact Hlen.
  auto using orZero_Some.
Qed.

Lemma percentile_0_99 (times : list Qc) :
  arrayLength (length times) → times ≠ [] →
  ∃ x, times !! (length times * 99 / 100)%nat = Some x ∧
       atIndex times (Binary64.floorMul (length times) Binary64.c0_99) = Some x ∧
       orZero (atIndex times (Binary64.floorMul (length times) Binary64.c0_99)) = x.
Proof.
  intros Hlen Hne.
  assert (Hpos : (0 < length times)%nat) by (destruct times; [done | simpl; lia]).
  destruct (lookup_lt_is_Some_2 times (length times * 99 / 100)%nat) as [x Hx].
  { apply Nat.Div0.div_lt_upper_bound; lia. }
  exists x. rewrite Binary64Facts.floorMul_0_99, atIndex_nat, Hx by exact Hlen.
  auto using orZero_Some.
Qed.

(** ** Report generation: when it throws, and what it returns *)

Lemma successfulOf_length (results : list PerformanceMetric) :
  (length (successfulOf results) ≤ length results)%nat.
Proof. apply List.filter_length_le. Qed.

Lemma successfulTimes_length (results : list PerformanceMetric) :
  length (successfulTimes results) = length (successfulOf results).
Proof. unfold successfulTimes. rewrite sortAscending_length, length_map. reflexivity. Qed.

Lemma successfulTimes_nonempty (results : list PerformanceMetric) :
  successfulOf results ≠ [] → successfulTimes results ≠ [].
Proof.
  intros Hne Hnil. apply Hne, length_zero_iff_nil.
  rewrite <- successfulTimes_length, Hnil. reflexivity.
Qed.



(** The report returned when at least one sample is successful, field by
    field. *)
Lemma generateReport_fields (results : list PerformanceMetric) (report : PerformanceReport) :
  generateReport results = inr report →
  results ≠ [] ∧ successfulOf results ≠ [] ∧
  let times := successfulTimes results in
  let s := summary report in
  Summary.totalRequests s = length results ∧
  Summary.averageResponseTime s = sumOf times / num (length times) ∧
  Summary.p50ResponseTime s =
    orZero (atIndex times (Binary64.floorMul (length times) Binary64.c0_5)) ∧
  Summary.p95ResponseTime s =
    orZero (atIndex times (Binary64.floorMul (length times) Binary64.c0_95)) ∧
  Summary.p99ResponseTime s =
    orZero (atIndex times (Binary64.floorMul (length times) Binary64.c0_99)) ∧
  Summary.minResponseTime s = Math_min times ∧
  Summary.maxResponseTime s = Math_max times ∧
  Summary.successRate s =
    num (length (successfulOf results)) / num (length results) * dec 100 1 ∧
  Summary.errorRate s =
    num (length results - length (successfulOf results)) / num (length results)
    * dec 100 1 ∧
  endpointBreakdown report = breakdownOf <$> foldl collect ∅ results ∧
  timeSeriesData report = results ∧
  recommendations report =
    generateRecommendations times
      (num (length (successfulOf results)) / num (length results)).
Proof.
  unfold generateReport. fold (successfulOf results). fold (successfulTimes results).
  case_decide as Hlen; [discriminate|].
  case_decide as Hsucc; [discriminate|].
  intros [= <-]. cbn [summary endpointBreakdown timeSeriesData recommendations].
  split; [by intros ->|].
  split.
  { intros Hnil. apply Hsucc. rewrite successfulTimes_length, Hnil. reflexivity. }
  repeat split; reflexivity.
Qed.





(** ** C1: nearest-rank percentiles *)

Lemma Qfloor_num_mul (n : nat) (a : Z) (b : positive) :
  Qfloor (num n * dec a b) = (Z.of_nat n * a / Zpos b)%Z.
Proof.
  transitivity (Qfloor (inject_Z (Z.of_nat n) * (a # b))%Q).
  - apply Qfloor_comp. unfold num, dec, Qc_of_Z, Qcmult, Q2Qc. cbn [this].
    rewrite !Qred_correct. reflexivity.
  - unfold Qfloor, Qmult, inject_Z. cbn [Qnum Qden].
    rewrite Pos.mul_1_l. reflexivity.
Qed.

Lemma nearestRank_0_5 (n : nat) : nearestRank n (dec 1 2) = (n / 2)%nat.
Proof.
  unfold nearestRank. rewrite Qfloor_num_mul, Z.mul_1_r.
  rewrite <- (Nat2Z.id (n / 2)). f_equal.
  rewrite Nat2Z.inj_div. reflexivity.
Qed.

Lemma nearestRank_0_95 (n : nat) : nearestRank n (dec 95 100) = (n * 95 / 100)%nat.
Proof.
  unfold nearestRank. rewrite Qfloor_num_mul.
  rewrite <- (Nat2Z.id (n * 95 / 100)). f_equal.
  rewrite Nat2Z.inj_div, Nat2Z.inj_mul. reflexivity.
Qed.

Lemma nearestRank_0_99 (n : nat) : nearestRank n (dec 99 100) = (n * 99 / 100)%nat.
Proof.
  unfold nearestRank. rewrite Qfloor_num_mul.
  rewrite <- (Nat2Z.id (n * 99 / 100)). f_equal.
  rewrite Nat2Z.inj_div, Nat2Z.inj_mul. reflexivity.
Qed.



(** ** C2: which samples each summary figure is computed over *)

Lemma sumOf_acc (a : Qc) (times : list Qc) : foldl Qcplus a times = a + sumOf times.
Proof.
  unfold sumOf. revert a. induction times as [|t ts IH]; intros a; simpl.
  - ring.
  - rewrite IH, (IH (0 + t)). ring.
Qed.

Lemma sumOf_cons (t : Qc) (times : list Qc) : sumOf (t :: times) = t + sumOf times.
Proof. unfold sumOf at 1. simpl. rewrite sumOf_acc. ring. Qed.

Lemma sumOf_Permutation (l1 l2 : list Qc) : l1 ≡ₚ l2 → sumOf l1 = sumOf l2.
Proof.
  induction 1 as [|x l l' _ IH|x y l|l l' l'' _ IH1 _ IH2].
  - reflexivity.
  - rewrite !sumOf_cons, IH. reflexivity.
  - rewrite !sumOf_cons. ring.
  - congruence.
Qed.

Lemma Qcmin_spec (a b : Qc) : (Qcmin a b = a ∨ Qcmin a b = b) ∧ Qcmin a b ≤ a ∧ Qcmin a b ≤ b.
Proof.
  unfold Qcmin. case_decide as H.
  - split; [by left|]. split; [reflexivity | exact H].
  - split; [by right|]. split; [|reflexivity].
    destruct (total Qcle a b); [done | assumption].
Qed.

Lemma Qcmax_spec (a b : Qc) : (Qcmax a b = a ∨ Qcmax a b = b) ∧ a ≤ Qcmax a b ∧ b ≤ Qcmax a b.
Proof.
  unfold Qcmax. case_decide as H.
  - split; [by right|]. split; [exact H | reflexivity].
  - split; [by left|]. split; [reflexivity|].
    destruct (total Qcle a b); [done | assumption].
Qed.

Lemma foldl_Qcmin_spec (times : list Qc) (a : Qc) :
  foldl Qcmin a times ∈ a :: times ∧ ∀ t, t ∈ a :: times → foldl Qcmin a times ≤ t.
Proof.
  revert a. induction times as [|x xs IH]; intros a; simpl.
  - split; [left|]. intros t Ht. apply list_elem_of_singleton in Ht as ->. reflexivity.
  - destruct (IH (Qcmin a x)) as [Hin Hle].
    destruct (Qcmin_spec a x) as (Hsel & Hla & Hlx).
    split.
    + apply elem_of_cons in Hin as [Heq|Hin].
      * rewrite Heq. destruct Hsel as [->| ->]; [left | right; left].
      * right. right. exact Hin.
    + intros t Ht.
      assert (Hm : foldl Qcmin (Qcmin a x) xs ≤ Qcmin a x) by (apply Hle; left).
      apply elem_of_cons in Ht as [->|Ht]; [by etrans|].
      apply elem_of_cons in Ht as [->|Ht]; [by etrans|].
      apply Hle. by right.
Qed.

Lemma foldl_Qcmax_spec (times : list Qc) (a : Qc) :
  foldl Qcmax a times ∈ a :: times ∧ ∀ t, t ∈ a :: times → t ≤ foldl Qcmax a times.
Proof.
  revert a. induction times as [|x xs IH]; intros a; simpl.
  - split; [left|]. intros t Ht. apply list_elem_of_singleton in Ht as ->. reflexivity.
  - destruct (IH (Qcmax a x)) as [Hin Hle].
    destruct (Qcmax_spec a x) as (Hsel & Hla & Hlx).
    split.
    + apply elem_of_cons in Hin as [Heq|Hin].
      * rewrite Heq. destruct Hsel as [->| ->]; [left | right; left].
      * right. right. exact Hin.
    + intros t Ht.
      assert (Hm : Qcmax a x ≤ foldl Qcmax (Qcmax a x) xs) by (apply Hle; left).
      apply elem_of_cons in Ht as [->|Ht]; [by etrans|].
      apply elem_of_cons in Ht as [->|Ht]; [by etrans|].
      apply Hle. by right.
Qed.

Lemma Math_min_spec (times : list Qc) :
  times ≠ [] → Math_min times ∈ times ∧ ∀ t, t ∈ times → Math_min times ≤ t.
Proof. destruct times as [|t ts]; [done|]. intros _. apply foldl_Qcmin_spec. Qed.

Lemma Math_max_spec (times : list Qc) :
  times ≠ [] → Math_max times ∈ times ∧ ∀ t, t ∈ times → t ≤ Math_max times.
Proof. destruct times as [|t ts]; [done|]. intros _. apply foldl_Qcmax_spec. Qed.

Lemma num_sub (m n : nat) : (n ≤ m)%nat → num (m - n) = num m - num n.
Proof.
  intros Hle. apply Qc_is_canon. unfold num, Qc_of_Z.
  cbn [this Qcminus Qcplus Qcopp Q2Qc]. rewrite !Qred_correct.
  rewrite Nat2Z.inj_sub by exact Hle.
  unfold Qeq, Qplus, Qopp, inject_Z. cbn [Qnum Qden]. lia.
Qed.

Lemma num_nonzero (n : nat) : n ≠ 0%nat → num n ≠ 0.
Proof.
  intros Hn Heq. apply (f_equal this) in Heq. unfold num, Qc_of_Z in Heq.
  cbn in Heq. injection Heq as Heq. lia.
Qed.

Lemma complement_rate (s t : nat) :
  (s ≤ t)%nat → t ≠ 0%nat →
  num (t - s) / num t * dec 100 1 = dec 100 1 - num s / num t * dec 100 1.
Proof.
  intros Hle Ht. rewrite num_sub by exact Hle.
  pose proof (num_nonzero t Ht). field. assumption.
Qed.




(** ** The endpoint breakdown *)

Lemma collect_insert (m : gmap string Stats.t) (r : PerformanceMetric) :
  collect m r = <[endpoint r := bump r (default Stats.empty (m !! endpoint r))]> m.
Proof.
  apply map_eq. intros j. unfold collect, bump.
  destruct (decide (endpoint r = j)) as [<-|Hne].
  - rewrite lookup_insert_eq.
    destruct (m !! endpoint r) as [s|] eqn:Hs; destruct (isSuccessful r);
      rewrite ?lookup_alter_eq, ?lookup_insert_eq, ?Hs; reflexivity.
  - rewrite lookup_insert_ne by exact Hne.
    destruct (m !! endpoint r) as [s|] eqn:Hs; destruct (isSuccessful r);
      rewrite ?lookup_alter_ne, ?lookup_insert_ne by exact Hne; reflexivity.
Qed.

Lemma collect_lookup (m : gmap string Stats.t) (r : PerformanceMetric) (path : string) :
  collect m r !! path =
    if bool_decide (endpoint r = path)
    then Some (bump r (default Stats.empty (m !! path)))
    else m !! path.
Proof.
  rewrite collect_insert. case_bool_decide as H.
  - subst. apply lookup_insert_eq.
  - by apply lookup_insert_ne.
Qed.

Lemma collect_fold_lookup (results : list PerformanceMetric) (m : gmap string Stats.t)
    (path : string) :
  foldl collect m results !! path =
    foldl (λ o r, Some (bump r (default Stats.empty o))) (m !! path) (groupOf path results).
Proof.
  revert m. induction results as [|r rs IH]; intros m; [reflexivity|].
  cbn [foldl]. rewrite IH, collect_lookup. unfold groupOf. cbn [List.filter].
  case_bool_decide; reflexivity.
Qed.

Lemma bump_fold_Some (group : list PerformanceMetric) (s : Stats.t) :
  foldl (λ o r, Some (bump r (default Stats.empty o))) (Some s) group =
    Some {| Stats.requests := Stats.requests s + length group;
            Stats.responseTimes := Stats.responseTimes s ++ map responseTime group;
            Stats.successCount := Stats.successCount s + length (successfulOf group) |}.
Proof.
  revert s. induction group as [|r rs IH]; intros s.
  - cbn. rewrite !Nat.add_0_r, app_nil_r. by destruct s.
  - cbn [foldl default]. rewrite IH. f_equal. unfold bump, successfulOf.
    cbn [List.filter map length].
    destruct (isSuccessful r); cbn; rewrite <- app_assoc; f_equal; lia.
Qed.

(** The accumulator of a path after the whole loop. *)
Lemma collect_group (results : list PerformanceMetric) (path : string) :
  foldl collect ∅ results !! path =
    match groupOf path results with
    | [] => None
    | group =>
        Some {| Stats.requests := length group;
                Stats.responseTimes := map responseTime group;
                Stats.successCount := length (successfulOf group) |}
    end.
Proof.
  rewrite collect_fold_lookup, lookup_empty.
  destruct (groupOf path results) as [|r rs]; [reflexivity|].
  cbn [foldl default]. rewrite bump_fold_Some. f_equal.
  unfold bump, successfulOf. cbn [List.filter map length].
  destruct (isSuccessful r); reflexivity.
Qed.






Lemma groupOf_length (path : string) (results : list PerformanceMetric) :
  (length (groupOf path results) ≤ length results)%nat.
Proof. apply List.filter_length_le. Qed.

Lemma groupOf_elem_of (path : string) (results : list PerformanceMetric) (r : PerformanceMetric) :
  r ∈ groupOf path results ↔ r ∈ results ∧ endpoint r = path.
Proof.
  unfold groupOf. rewrite !list_elem_of_In, List.filter_In, bool_decide_eq_true.
  reflexivity.
Qed.

(** The breakdown entry of a path, from the samples of that path. *)
Lemma breakdown_lookup (results : list PerformanceMetric) (report : PerformanceReport)
    (path : string) :
  arrayLength (length results) →
  generateReport results = inr report →
  let group := groupOf path results in
  let times := sortAscending (map responseTime group) in
  match endpointBreakdown report !! path with
  | None => group = []
  | Some b =>
      group ≠ [] ∧
      Breakdown.requests b = length group ∧
      Breakdown.avgResponseTime b = sumOf (map responseTime group) / num (length group) ∧
      times !! (length group * 95 / 100)%nat = Some (Breakdown.p95ResponseTime b) ∧
      atIndex times (Binary64.floorMul (length times) Binary64.c0_95)
        = Some (Breakdown.p95ResponseTime b) ∧
      Breakdown.successRate b
        = num (length (successfulOf group)) / num (length group) * dec 100 1
  end.
Proof.
  intros Hlen Hrep. cbn zeta.
  apply generateReport_fields in Hrep as (_ & _ & _ & _ & _ & _ & _ & _ & _ & _ & _ & Hbd & _).
  rewrite Hbd, lookup_fmap, collect_group.
  pose proof (groupOf_length path results) as Hgl.
  destruct (groupOf path results) as [|r rs]; [reflexivity|].
  set (group := r :: rs) in *.
  set (times := sortAscending (map responseTime group)).
  cbn [fmap option_fmap option_map].
  assert (Hne : group ≠ []) by done.
  split; [exact Hne|].
  unfold breakdownOf. cbn [Stats.requests Stats.responseTimes Stats.successCount
    Breakdown.requests Breakdown.avgResponseTime Breakdown.p95ResponseTime
    Breakdown.successRate]. fold times.
  assert (Hlt : length times = length group)
    by (unfold times; rewrite sortAscending_length, length_map; reflexivity).
  assert (Hal : arrayLength (length times)).
  { rewrite Hlt. apply (arrayLength_le _ (length results)); [exact Hgl | exact Hlen]. }
  assert (Hnt : times ≠ []).
  { intros Hnil. apply Hne, length_zero_iff_nil. rewrite <- Hlt, Hnil. reflexivity. }
  destruct (percentile_0_95 times Hal Hnt) as (x & Hx & Hat & Hor).
  rewrite Hor. rewrite Hlt in Hx.
  split; [reflexivity|].
  split; [rewrite Hlt; f_equal; apply sumOf_Permutation, sortAscending_Permutation|].
  split; [exact Hx|]. split; [exact Hat|]. reflexivity.
Qed.



(** ** C10: the percentile indices are in bounds *)

Lemma nearestRank_lt (n : nat) :
  (1 ≤ n)%nat →
  (nearestRank n (dec 1 2) < n)%nat ∧
  (nearestRank n (dec 95 100) < n)%nat ∧
  (nearestRank n (dec 99 100) < n)%nat.
Proof.
  intros Hn. rewrite nearestRank_0_5, nearestRank_0_95, nearestRank_0_99.
  split; [apply Nat.div_lt; lia|].
  split; apply Nat.Div0.div_lt_upper_bound; lia.
Qed.

Lemma observed_time (results : list PerformanceMetric) (i : nat) (x : Qc) :
  sortAscending (map responseTime results) !! i = Some x →
  ∃ r, r ∈ results ∧ responseTime r = x.
Proof.
  intros Hx. apply list_elem_of_lookup_2 in Hx.
  rewrite sortAscending_elem_of, list_elem_of_In, in_map_iff in Hx.
  destruct Hx as (r & Hr & Hin).
  exists r. split; [by apply list_elem_of_In | exact Hr].
Qed.

(** C10: for every array length n >= 1 and p in {0.5, 0.95, 0.99} the index
    [Math.floor(n * p)] is floor(n * p) and lies below n; so, whenever
    report generation returns, each indexed read is defined, the [|| 0]
    fallbacks do not change it, and the summary's p50, p95 and p99 and every
    group's p95 are response times observed in the sample set (of a
    successful sample for the summary, of a sample of that endpoint for a
    group). *)
Theorem C10_percentile_indices_in_bounds :
  (∀ n : nat, (1 ≤ n)%nat → arrayLength n →
     Binary64.floorMul n Binary64.c0_5 = Some (Z.of_nat (nearestRank n (dec 1 2))) ∧
     Binary64.floorMul n Binary64.c0_95 = Some (Z.of_nat (nearestRank n (dec 95 100))) ∧
     Binary64.floorMul n Binary64.c0_99 = Some (Z.of_nat (nearestRank n (dec 99 100))) ∧
     (nearestRank n (dec 1 2) < n)%nat ∧
     (nearestRank n (dec 95 100) < n)%nat ∧
     (nearestRank n (dec 99 100) < n)%nat) ∧
  (∀ (results : list PerformanceMetric) (report : PerformanceReport),
     arrayLength (length results) →
     generateReport results = inr report →
     let times := successfulTimes results in
     let s := summary report in
     atIndex times (Binary64.floorMul (length times) Binary64.c0_5)
       = Some (Summary.p50ResponseTime s) ∧
     atIndex times (Binary64.floorMul (length times) Binary64.c0_95)
       = Some (Summary.p95ResponseTime s) ∧
     atIndex times (Binary64.floorMul (length times) Binary64.c0_99)
       = Some (Summary.p99ResponseTime s) ∧
     (∃ r, r ∈ successfulOf results ∧ responseTime r = Summary.p50ResponseTime s) ∧
     (∃ r, r ∈ successfulOf results ∧ responseTime r = Summary.p95ResponseTime s) ∧
     (∃ r, r ∈ successfulOf results ∧ responseTime r = Summary.p99ResponseTime s) ∧
     ∀ (path : string) (b : Breakdown.t),
       endpointBreakdown report !! path = Some b →
       let groupTimes := sortAscending (map responseTime (groupOf path results)) in
       atIndex groupTimes (Binary64.floorMul (length groupTimes) Binary64.c0_95)
         = Some (Breakdown.p95ResponseTime b) ∧
       ∃ r, r ∈ results ∧ endpoint r = path ∧
            responseTime r = Breakdown.p95ResponseTime b).
Proof.
  split.
  - intros n Hn Hal.
    rewrite nearestRank_0_5, nearestRank_0_95, nearestRank_0_99.
    rewrite Binary64Facts.floorMul_0_5, Binary64Facts.floorMul_0_95,
      Binary64Facts.floorMul_0_99 by exact Hal.
    pose proof (nearestRank_lt n Hn) as H.
    rewrite nearestRank_0_5, nearestRank_0_95, nearestRank_0_99 in H.
    destruct H as (H1 & H2 & H3). auto 10.
  - intros results report Hlen Hrep times s.
    pose proof Hrep as Hfields.
    apply generateReport_fields in Hfields
      as (_ & Hgood & _ & _ & Hp50 & Hp95 & Hp99 & _).
    fold times in Hp50, Hp95, Hp99. fold s in Hp50, Hp95, Hp99.
    assert (Hal : arrayLength (length times)).
    { apply (arrayLength_le _ (length results)); [|exact Hlen].
      unfold times. rewrite successfulTimes_length. apply successfulOf_length. }
    assert (Hne : times ≠ []) by (by apply successfulTimes_nonempty).
    destruct (percentile_0_5 times Hal Hne) as (x50 & H50 & A50 & E50).
    destruct (percentile_0_95 times Hal Hne) as (x95 & H95 & A95 & E95).
    destruct (percentile_0_99 times Hal Hne) as (x99 & H99 & A99 & E99).
    rewrite Hp50, Hp95, Hp99, E50, E95, E99.
    split; [exact A50|]. split; [exact A95|]. split; [exact A99|].
    split; [exact (observed_time _ _ _ H50)|].
    split; [exact (observed_time _ _ _ H95)|].
    split; [exact (observed_time _ _ _ H99)|].
    intros path b Hb groupTimes.
    pose proof (breakdown_lookup results report path Hlen Hrep) as H.
    cbn zeta in H. rewrite Hb in H.
    destruct H as (_ & _ & _ & Hx & Hat & _). fold groupTimes in Hx, Hat.
    split; [exact Hat|].
    destruct (observed_time _ _ _ Hx) as (r & Hin & Hr).
    apply groupOf_elem_of in Hin as [Hin Hpath]. eauto.
Qed.

Lemma C10_percentile_indices_in_bounds_witness :
  ∃ report,
    generateReport mixedResults = inr report ∧
    atIndex (successfulTimes mixedResults)
      (Binary64.floorMul (length (successfulTimes mixedResults)) Binary64.c0_99)
      = Some (Summary.p99ResponseTime (summary report)) ∧
    ∃ r, r ∈ successfulOf mixedResults ∧
         responseTime r = Summary.p99ResponseTime (summary report).
Proof.
  assert (Hlen : arrayLength (length mixedResults)) by (vm_compute; reflexivity).
  assert (Hrun : ∃ report, generateReport mixedResults = inr report)
    by (eexists; vm_compute; reflexivity).
  destruct Hrun as [report Hrep].
  exists report. split; [exact Hrep|].
  destruct (proj2 C10_percentile_indices_in_bounds mixedResults report Hlen Hrep)
    as (_ & _ & H99 & _ & _ & Hobs & _).
  split; [exact H99 | exact Hobs].
Defined.

(** ** C7: the recommendation ladder *)

Lemma hundred_pos : 0 < dec 100 1.
Proof. reflexivity. Qed.

Lemma percent_le (a b rate : Qc) :
  a * dec 100 1 = b → (a ≤ rate ↔ b ≤ rate * dec 100 1).
Proof.
  intros <-. split.
  - intros H. apply Qcmult_le_compat_r; [exact H | apply Qclt_le_weak, hundred_pos].
  - apply Qcmult_lt_0_le_reg_r, hundred_pos.
Qed.

Lemma percent_lt (a b rate : Qc) :
  a * dec 100 1 = b → (a < rate ↔ b < rate * dec 100 1).
Proof.
  intros Hab. rewrite !Qclt_nge.
  rewrite (percent_le rate (rate * dec 100 1) a) by reflexivity.
  rewrite Hab. reflexivity.
Qed.

Lemma percent_999 : dec 999 1000 * dec 100 1 = dec 999 10.
Proof. apply Qc_is_canon. reflexivity. Qed.

Lemma percent_99 : dec 99 100 * dec 100 1 = dec 99 1.
Proof. apply Qc_is_canon. reflexivity. Qed.

Lemma percent_95 : dec 95 100 * dec 100 1 = dec 95 1.
Proof. apply Qc_is_canon. reflexivity. Qed.

Lemma decide_iff_if {A} (P Q : Prop) `{Decision P, Decision Q} (x y : A) :
  (P ↔ Q) → (if decide P then x else y) = (if decide Q then x else y).
Proof. intros HPQ. do 2 case_decide; tauto. Qed.

Lemma successBand_fraction (successRate : Qc) :
  (if decide (dec 999 1000 ≤ successRate) then msgOutstanding
   else if decide (dec 99 100 ≤ successRate) then msgSuccessExcellent
   else if decide (dec 95 100 ≤ successRate) then msgSuccessGood
   else msgInvestigate) = successBand (successRate * dec 100 1).
Proof.
  unfold successBand.
  rewrite (decide_iff_if _ _ _ _ (percent_le _ _ successRate percent_999)).
  rewrite (decide_iff_if _ _ _ _ (percent_le _ _ successRate percent_99)).
  rewrite (decide_iff_if _ _ _ _ (percent_le _ _ successRate percent_95)).
  reflexivity.
Qed.

(** The function in terms of the three numbers it computes. *)
Lemma generateRecommendations_ladder (responseTimes : list Qc) (successRate : Qc) :
  generateRecommendations responseTimes successRate =
    recommendationLadder
      (sumOf responseTimes / num (length responseTimes))
      (orZero (atIndex responseTimes
                 (Binary64.floorMul (length responseTimes) Binary64.c0_95)))
      (successRate * dec 100 1).
Proof.
  unfold generateRecommendations, recommendationLadder, affirmations.
  cbn zeta. rewrite successBand_fraction.
  fold (meanBand (sumOf responseTimes / num (length responseTimes))).
  fold (p95Band (orZero (atIndex responseTimes
                   (Binary64.floorMul (length responseTimes) Binary64.c0_95)))).
  set (mean := sumOf responseTimes / num (length responseTimes)).
  assert (Hiff : mean < dec 100 1 ∧ dec 99 100 < successRate
                 ↔ mean < dec 100 1 ∧ dec 99 1 < successRate * dec 100 1).
  { rewrite (percent_lt _ _ successRate percent_99). reflexivity. }
  rewrite (decide_iff_if _ _ _ _ Hiff).
  case_decide; reflexivity.
Qed.



(** ** C8: weighted selection *)

Lemma remainderAfter_cons (random : Qc) (ep : Endpoint.t) (walked : list Endpoint.t) :
  remainderAfter random (ep :: walked)
  = remainderAfter (random - Qc_of_Z (Endpoint.weight ep)) walked.
Proof. reflexivity. Qed.

Lemma remainderAfter_total (random : Qc) (walked : list Endpoint.t) :
  remainderAfter random walked = random - Qc_of_Z (totalWeightOf walked).
Proof.
  unfold remainderAfter, totalWeightOf.
  assert (H : ∀ (acc : Z) (r : Qc),
             foldl (λ r ep, r - Qc_of_Z (Endpoint.weight ep)) r walked
             = r + Qc_of_Z acc
               - Qc_of_Z (foldl (λ sum ep, sum + Endpoint.weight ep)%Z acc walked)).
  { induction walked as [|ep rest IH]; intros acc r; cbn [foldl].
    - ring.
    - rewrite (IH (acc + Endpoint.weight ep)%Z), Z2Qc_inj_add. ring. }
  rewrite (H 0%Z random), Z2Qc_inj_0. ring.
Qed.

(** The walk stops at the first entry that brings the remainder to zero or
    below; it runs off the end only if every remainder stays positive. *)
Lemma walk_spec (endpoints : list Endpoint.t) (random : Qc) :
  match walk random endpoints with
  | Some chosen =>
      ∃ before after,
        endpoints = before ++ chosen :: after ∧
        remainderAfter random (before ++ [chosen]) ≤ 0 ∧
        ∀ k, (0 < k ≤ length before)%nat → 0 < remainderAfter random (take k endpoints)
  | None =>
      ∀ k, (0 < k ≤ length endpoints)%nat → 0 < remainderAfter random (take k endpoints)
  end.
Proof.
  revert random. induction endpoints as [|ep rest IH]; intros random.
  - cbn. intros k Hk. lia.
  - cbn [walk]. case_decide as Hle.
    + exists [], rest. split; [reflexivity|]. split; [exact Hle|].
      cbn. intros k Hk. lia.
    + apply Qclt_nge in Hle.
      specialize (IH (random - Qc_of_Z (Endpoint.weight ep))).
      destruct (walk (random - Qc_of_Z (Endpoint.weight ep)) rest) as [chosen|].
      * destruct IH as (before & after & -> & Hstop & Hpos).
        exists (ep :: before), after. split; [reflexivity|]. split; [exact Hstop|].
        intros [|k] Hk; [lia|]. cbn [take]. rewrite remainderAfter_cons.
        destruct k as [|k]; [exact Hle|]. apply Hpos. cbn in Hk. lia.
      * intros [|k] Hk; [lia|]. cbn [take]. rewrite remainderAfter_cons.
        destruct k as [|k]; [exact Hle|]. apply IH. cbn in Hk. lia.
Qed.

(** The selector on any catalog and any draw. *)
Lemma selectWeighted_spec (endpoints : list Endpoint.t) (random : Qc) :
  endpoints ≠ [] →
  ∃ chosen,
    selectWeighted endpoints random = Some chosen ∧
    chosen ∈ endpoints ∧
    ((∃ before after,
        endpoints = before ++ chosen :: after ∧
        remainderAfter random (before ++ [chosen]) ≤ 0 ∧
        ∀ k, (0 < k ≤ length before)%nat →
             0 < remainderAfter random (take k endpoints))
     ∨
     ((∀ k, (0 < k ≤ length endpoints)%nat →
            0 < remainderAfter random (take k endpoints)) ∧
      head endpoints = Some chosen ∧
      Qc_of_Z (totalWeightOf endpoints) < random)).
Proof.
  intros Hne. unfold selectWeighted.
  pose proof (walk_spec endpoints random) as Hwalk.
  destruct (walk random endpoints) as [chosen|].
  - exists chosen. split; [reflexivity|].
    destruct Hwalk as (before & after & Heq & Hstop & Hpos).
    split; [rewrite Heq; apply elem_of_app; right; left|].
    left. eauto.
  - destruct endpoints as [|first rest]; [done|].
    exists first. split; [reflexivity|]. split; [left|].
    right. split; [exact Hwalk|]. split; [reflexivity|].
    specialize (Hwalk (length (first :: rest)) ltac:(cbn; lia)).
    rewrite firstn_all, remainderAfter_total in Hwalk.
    apply Qclt_minus_iff. exact Hwalk.
Qed.

Lemma bind_run {A B} (m : M A) (f : A → M B) (w w' : World) (a : A) :
  m w = (inr a, w') → (m ≫= f) w = f a w'.
Proof. intros H. unfold mbind, M_bind. rewrite H. reflexivity. Qed.

(** [selectRandomEndpoint] consumes one random number and selects from the
    default catalog. *)
Lemma selectRandomEndpoint_run (w : World) :
  ∃ chosen,
    selectRandomEndpoint w = (inr (Some chosen), countDraw w) ∧
    chosen ∈ getTestEndpoints ∧
    selectWeighted getTestEndpoints
      (entropy w (draws w) * Qc_of_Z (totalWeightOf getTestEndpoints)) = Some chosen.
Proof.
  unfold selectRandomEndpoint. cbn zeta.
  destruct (selectWeighted_spec getTestEndpoints
              (entropy w (draws w) * Qc_of_Z (totalWeightOf getTestEndpoints)))
    as (chosen & Hsel & Hin & _); [discriminate|].
  exists chosen. rewrite (bind_run _ _ w (countDraw w) (entropy w (draws w)))
    by reflexivity.
  unfold mret, M_ret. rewrite Hsel. auto.
Qed.



(** ** The request prober *)

Lemma elapsed (d : Qc) (w : World) : clock (elapse d w) - clock w = d.
Proof. cbn. ring. Qed.

(** The three ways a probe can go, with the sample and the world it ends in. *)
Lemma testSingleRequest_run (baseUrl path verb : string) (w : World) :
  let x := nextExchange w baseUrl path verb in
  let w1 := elapse (fetchDelay x) (countFetch w) in
  testSingleRequest baseUrl path verb w =
    match fetched x with
    | None =>
        (inr {| endpoint := path; method := verb;
                responseTime := clock w1 - clock w;
                statusCode := 0; contentLength := 0;
                timestamp := (timeOrigin w + Qfloor (clock w1))%Z |}, w1)
    | Some response =>
        let w2 := elapse (textDelay response) w1 in
        match text response with
        | None =>
            (inr {| endpoint := path; method := verb;
                    responseTime := clock w2 - clock w;
                    statusCode := 0; contentLength := 0;
                    timestamp := (timeOrigin w + Qfloor (clock w2))%Z |}, w2)
        | Some content =>
            (inr {| endpoint := path; method := verb;
                    responseTime := clock w1 - clock w;
                    statusCode := status response;
                    contentLength := String.length content;
                    timestamp := (timeOrigin w + Qfloor (clock w2))%Z |}, w2)
        end
    end.
Proof.
  unfold testSingleRequest, nextExchange, mbind, M_bind, tryCatch, fetch,
    response_text, performance_now, Date_now, mret, M_ret.
  cbn zeta.
  destruct (fetched (network w (fetches w) (baseUrl +:+ path) verb)) as [response|];
    [|reflexivity].
  destruct (text response); reflexivity.
Qed.

(** A probe always returns a sample, and leaves the result set and the
    output alone. *)
Lemma testSingleRequest_returns (baseUrl path verb : string) (w : World) :
  ∃ sample w',
    testSingleRequest baseUrl path verb w = (inr sample, w') ∧
    endpoint sample = path ∧ method sample = verb ∧
    stdout w' = stdout w ∧ results w' = results w.
Proof.
  rewrite testSingleRequest_run. cbn zeta.
  destruct (fetched (nextExchange w baseUrl path verb)) as [response|];
    [destruct (text response)|]; eexists _, _; (split; [reflexivity|]); auto.
Qed.

(** C4: a probe never throws.  Whatever the endpoint and the method, and
    whether the request is answered (with a success or an error status) or
    fails in transport, a call returns one sample; after a transport failure
    the sample has statusCode 0, contentLength 0 and as responseTime the time
    elapsed from the start of the probe to the failure. *)
Theorem C4_probe_never_throws (baseUrl path verb : string) (w : World) :
  ∃ sample w',
    testSingleRequest baseUrl path verb w = (inr sample, w') ∧
    endpoint sample = path ∧ method sample = verb ∧
    let x := nextExchange w baseUrl path verb in
    (transportFails x →
       statusCode sample = 0%Z ∧ contentLength sample = 0%nat ∧
       responseTime sample = clock w' - clock w) ∧
    (∀ response content,
       fetched x = Some response → text response = Some content →
       statusCode sample = status response ∧
       contentLength sample = String.length content).
Proof.
  rewrite testSingleRequest_run. cbn zeta. unfold transportFails.
  destruct (fetched (nextExchange w baseUrl path verb)) as [response|].
  - destruct (text response) as [content|] eqn:Htext.
    + eexists _, _. split; [reflexivity|].
      split; [reflexivity|]. split; [reflexivity|]. split.
      * intros [Hf|(response' & Hsome & Hnone)]; [discriminate|].
        injection Hsome as <-. congruence.
      * intros response' content' [= <-] Hc. rewrite Htext in Hc.
        injection Hc as <-. split; reflexivity.
    + eexists _, _. split; [reflexivity|].
      split; [reflexivity|]. split; [reflexivity|]. split.
      * intros _. split; [reflexivity|]. split; reflexivity.
      * intros response' content' [= <-] Hc. congruence.
  - eexists _, _. split; [reflexivity|].
    split; [reflexivity|]. split; [reflexivity|]. split.
    + intros _. split; [reflexivity|]. split; reflexivity.
    + intros response' content' Hsome. discriminate.
Qed.

(** A refused connection: one sample with the sentinel status, 3 ms after
    dispatch. *)
Example probe_deadWorld :
  ∃ sample w',
    testSingleRequest "http://localhost:3004" "/health" "GET" deadWorld
      = (inr sample, w') ∧
    statusCode sample = 0%Z ∧ contentLength sample = 0%nat ∧
    responseTime sample = dec 3 1.
Proof.
  rewrite testSingleRequest_run. cbn zeta.
  eexists _, _. split; [reflexivity|].
  split; [reflexivity|]. split; [reflexivity|].
  apply Qc_is_canon. reflexivity.
Qed.

(** ** C5: what the response time spans *)

(** C5, as stated, fails: in [steadyWorld] the response arrives after 5 ms
    and its body 20 ms later; the probe succeeds, the body is materialized
    25 ms after dispatch, and the recorded responseTime is 5 ms. *)
Lemma C5_response_time_counterexample :
  ∃ sample w',
    testSingleRequest "http://localhost:3004" "/" "GET" steadyWorld = (inr sample, w') ∧
    statusCode sample = 200%Z ∧ contentLength sample = 5%nat ∧
    clock w' - clock steadyWorld = dec 25 1 ∧
    responseTime sample = dec 5 1 ∧
    responseTime sample ≠ clock w' - clock steadyWorld.
Proof.
  rewrite testSingleRequest_run. cbn zeta.
  eexists _, _. split; [reflexivity|].
  split; [reflexivity|]. split; [reflexivity|].
  split; [apply Qc_is_canon; reflexivity|].
  split; [apply Qc_is_canon; reflexivity|].
  intros H. apply (f_equal this) in H. vm_compute in H. discriminate.
Qed.

(** C5, amended: the responseTime of a successful probe spans from the
    dispatch of the request to the moment [fetch] resolves with the
    response; the body is read after that and its transfer time is not part
    of the measurement.  On a failure it spans from dispatch to the failure. *)
Theorem C5_response_time_span (baseUrl path verb : string) (w : World) :
  let x := nextExchange w baseUrl path verb in
  ∃ sample w',
    testSingleRequest baseUrl path verb w = (inr sample, w') ∧
    (∀ response content,
       fetched x = Some response → text response = Some content →
       responseTime sample = fetchDelay x ∧
       clock w' - clock w = fetchDelay x + textDelay response) ∧
    (transportFails x → responseTime sample = clock w' - clock w).
Proof.
  rewrite testSingleRequest_run. cbn zeta. unfold transportFails.
  destruct (fetched (nextExchange w baseUrl path verb)) as [response|].
  - destruct (text response) as [content|] eqn:Htext.
    + eexists _, _. split; [reflexivity|]. split.
      * intros response' content' [= <-] _. cbn. split; ring.
      * intros [Hf|(response' & Hsome & Hnone)]; [discriminate|].
        injection Hsome as <-. congruence.
    + eexists _, _. split; [reflexivity|]. split.
      * intros response' content' [= <-] Hc. congruence.
      * intros _. reflexivity.
  - eexists _, _. split; [reflexivity|]. split.
    + intros response' content' Hsome. discriminate.
    + intros _. reflexivity.
Qed.

(** ** C9: progress lines of the fixed-count benchmark *)

(** One iteration never throws; it appends one sample, and one progress line
    exactly when its 1-based index is a multiple of the interval. *)
Lemma benchmarkIteration_run (baseUrl : string) (requests interval i : nat) (w : World) :
  ∃ w' sample,
    benchmarkIteration baseUrl requests interval i w = (inr (), w') ∧
    results w' = results w ++ [sample] ∧
    ∃ lines,
      stdout w' = stdout w ++ lines ∧
      progressAt lines
        = if decide (((i + 1) mod interval)%nat = 0%nat) then [(i + 1)%nat] else [].
Proof.
  unfold benchmarkIteration.
  destruct (selectRandomEndpoint_run w) as (chosen & Hsel & _).
  rewrite (bind_run _ _ _ _ _ Hsel).
  destruct (testSingleRequest_returns baseUrl (Endpoint.path chosen)
              (Endpoint.method chosen) (countDraw w))
    as (sample & w2 & Hprobe & _ & _ & Hout & Hres).
  rewrite (bind_run _ _ _ _ _ Hprobe).
  rewrite (bind_run _ _ w2 (withResults (results w2 ++ [sample]) w2) ())
    by reflexivity.
  set (w3 := withResults (results w2 ++ [sample]) w2).
  case_decide as Hmod.
  - set (line := {| percent := num (i + 1) / num requests * dec 100 1;
                    completed := (i + 1)%nat; requested := requests;
                    average := sumOf (map responseTime (results w3))
                               / num (length (results w3)) |}).
    rewrite (bind_run _ _ w3 (withStdout (stdout w3 ++ [line]) w3) ()).
    2:{ rewrite (bind_run _ _ w3 w3 (results w3)) by reflexivity. reflexivity. }
    eexists _, sample. split; [reflexivity|]. cbn. rewrite Hres.
    split; [reflexivity|]. exists [line]. rewrite Hout. split; reflexivity.
  - rewrite (bind_run _ _ w3 w3 ()) by reflexivity.
    eexists _, sample. split; [reflexivity|]. cbn. rewrite Hres.
    split; [reflexivity|]. exists []. rewrite Hout, app_nil_r. split; reflexivity.
Qed.

Lemma forEach_run (baseUrl : string) (requests interval : nat) (indices : list nat)
    (w : World) :
  ∃ w' lines,
    forEach indices (benchmarkIteration baseUrl requests interval) w = (inr (), w') ∧
    length (results w') = (length (results w) + length indices)%nat ∧
    stdout w' = stdout w ++ lines ∧
    progressAt lines
      = List.filter (λ k, (k mod interval =? 0)%nat) (map S indices).
Proof.
  revert w. induction indices as [|i rest IH]; intros w.
  - exists w, []. cbn. rewrite app_nil_r, Nat.add_0_r. auto.
  - destruct (benchmarkIteration_run baseUrl requests interval i w)
      as (w1 & sample & Hstep & Hres & lines1 & Hout1 & Hat1).
    destruct (IH w1) as (w2 & lines2 & Hrest & Hlen & Hout2 & Hat2).
    exists w2, (lines1 ++ lines2). cbn [forEach].
    rewrite (bind_run _ _ _ _ _ Hstep). split; [exact Hrest|].
    split; [rewrite Hlen, Hres, length_app; cbn; lia|].
    split; [rewrite Hout2, Hout1, app_assoc; reflexivity|].
    unfold progressAt in *. rewrite map_app, Hat1, Hat2. cbn [map List.filter].
    replace (S i) with (i + 1)%nat by lia.
    case_decide as Hmod.
    + rewrite (proj2 (Nat.eqb_eq _ _) Hmod). reflexivity.
    + rewrite (proj2 (Nat.eqb_neq _ _) Hmod). reflexivity.
Qed.

(** The run as a whole: as many samples as requests, and the progress lines
    of the multiples of the interval. *)
Lemma runQuickBenchmark_progress (baseUrl : string) (requests : nat) (w : World) :
  ∃ lines,
    stdout (snd (runQuickBenchmark baseUrl requests w)) = stdout w ++ lines ∧
    progressAt lines = multiplesOf (progressIntervalOf requests) requests ∧
    length (results (snd (runQuickBenchmark baseUrl requests w))) = requests.
Proof.
  unfold runQuickBenchmark. cbn zeta.
  rewrite (bind_run _ _ w (withResults [] w) ()) by reflexivity.
  destruct (forEach_run baseUrl requests (progressIntervalOf requests)
              (seq 0 requests) (withResults [] w))
    as (w1 & lines & Hloop & Hlen & Hout & Hat).
  rewrite (bind_run _ _ _ _ _ Hloop).
  rewrite (bind_run _ _ w1 w1 (results w1)) by reflexivity.
  exists lines.
  assert (Hsnd : snd (match generateReport (results w1) with
                      | inl e => throw e
                      | inr report => mret report
                      end w1) = w1)
    by (destruct (generateReport (results w1)); reflexivity).
  rewrite Hsnd, Hout. split; [reflexivity|].
  split; [|rewrite Hlen, length_seq; reflexivity].
  rewrite Hat. unfold multiplesOf. rewrite seq_shift. reflexivity.
Qed.

(** C9, as stated, fails: for 15 requests ceil(15 / 10) is 2, yet a progress
    line is written at every one of the 15 iterations. *)
Lemma C9_progress_counterexample :
  progressAt (stdout (snd (runQuickBenchmark "http://localhost:3004" 15 steadyWorld)))
    = seq 1 15 ∧
  multiplesOf (ceilDiv 15 10) 15 = [2; 4; 6; 8; 10; 12; 14]%nat ∧
  progressAt (stdout (snd (runQuickBenchmark "http://localhost:3004" 15 steadyWorld)))
    ≠ multiplesOf (ceilDiv 15 10) 15.
Proof.
  assert (H : progressAt (stdout (snd (runQuickBenchmark "http://localhost:3004" 15
                                         steadyWorld))) = seq 1 15)
    by (vm_compute; reflexivity).
  split; [exact H|]. split; [reflexivity|].
  rewrite H. vm_compute. discriminate.
Qed.

(** C9, amended: in the fixed-count sequential benchmark over [requests]
    requests, progress is reported every max(1, floor(requests / 10))
    iterations, that is exactly at the iterations whose 1-based index is a
    multiple of max(1, floor(requests / 10)). *)
Theorem C9_progress_interval (baseUrl : string) (requests : nat) (w : World) :
  progressIntervalOf requests = Nat.max 1 (requests / 10) ∧
  ∃ lines,
    stdout (snd (runQuickBenchmark baseUrl requests w)) = stdout w ++ lines ∧
    progressAt lines = multiplesOf (Nat.max 1 (requests / 10)) requests ∧
    ∀ k, k ∈ progressAt lines ↔
         (1 ≤ k ≤ requests)%nat ∧ (k mod Nat.max 1 (requests / 10) = 0)%nat.
Proof.
  split; [reflexivity|].
  destruct (runQuickBenchmark_progress baseUrl requests w) as (lines & Hout & Hat & _).
  exists lines. split; [exact Hout|]. split; [exact Hat|].
  intros k. rewrite Hat. unfold multiplesOf, progressIntervalOf.
  rewrite list_elem_of_In, List.filter_In, in_seq, Nat.eqb_eq. lia.
Qed.

(** * Further properties of the code *)

(** ** The steady world *)

Lemma dec_unit (a : Z) : (0 ≤ a < 100)%Z → 0 ≤ dec a 100 ∧ dec a 100 < 1.
Proof.
  intros [H0 H1]. unfold dec, Qcle, Qclt. cbn [this Q2Qc].
  rewrite !Qred_correct. unfold Qle, Qlt. cbn. lia.
Qed.

Lemma steadyWorld_causal : causal steadyWorld.
Proof.
  intros k url verb. split; [done|]. intros response [= <-]. done.
Qed.

Lemma steadyWorld_unitInterval : unitInterval steadyWorld.
Proof.
  intros k. cbn [entropy steadyWorld]. apply dec_unit.
  pose proof (Nat.mod_upper_bound (k * 37) 100). lia.
Qed.



(** ** The summary figures *)

Lemma num_pos (n : nat) : n ≠ 0%nat → 0 < num n.
Proof.
  intros Hn. unfold num. rewrite <- Z2Qc_inj_0.
  apply (proj1 (Z2Qc_inj_lt 0 (Z.of_nat n))). lia.
Qed.

Lemma num_S (n : nat) : num (S n) = num n + 1.
Proof.
  unfold num. rewrite Nat2Z.inj_succ, <- Z.add_1_r, Z2Qc_inj_add, Z2Qc_inj_1.
  reflexivity.
Qed.

Lemma num_le (m n : nat) : (m ≤ n)%nat → num m ≤ num n.
Proof. intros H. unfold num. apply (proj1 (Z2Qc_inj_le _ _)). lia. Qed.

Lemma quotient_bounds (s lo hi : Qc) (n : nat) :
  n ≠ 0%nat → num n * lo ≤ s → s ≤ num n * hi → lo ≤ s / num n ∧ s / num n ≤ hi.
Proof.
  intros Hn Hlo Hhi. pose proof (num_pos n Hn) as Hpos.
  assert (Hne : num n ≠ 0) by (intros E; rewrite E in Hpos; by apply Qclt_not_eq in Hpos).
  split; apply (Qcmult_le_mono_pos_l _ _ (num n) Hpos);
    rewrite Qcmult_div_r by exact Hne; assumption.
Qed.

Lemma sumOf_bounds (times : list Qc) (lo hi : Qc) :
  (∀ t, t ∈ times → lo ≤ t ∧ t ≤ hi) →
  num (length times) * lo ≤ sumOf times ∧ sumOf times ≤ num (length times) * hi.
Proof.
  induction times as [|t ts IH]; intros Hall.
  - cbn. replace (num 0) with 0 by (apply Qc_is_canon; reflexivity).
    rewrite !Qcmult_0_l.
    split; apply Qcle_refl.
  - destruct IH as [IHlo IHhi]; [intros x Hx; apply Hall; by right|].
    destruct (Hall t) as [Hlo Hhi]; [left|].
    rewrite sumOf_cons. cbn [length]. rewrite num_S.
    replace ((num (length ts) + 1) * lo) with (lo + num (length ts) * lo) by ring.
    replace ((num (length ts) + 1) * hi) with (hi + num (length ts) * hi) by ring.
    split; apply Qcplus_le_compat; assumption.
Qed.

Lemma sortAscending_StronglySorted (times : list Qc) :
  StronglySorted Qcle (sortAscending times).
Proof. apply (StronglySorted_merge_sort Qcle). Qed.

Lemma StronglySorted_lookup_le (l : list Qc) (i j : nat) (x y : Qc) :
  StronglySorted Qcle l → (i ≤ j)%nat → l !! i = Some x → l !! j = Some y → x ≤ y.
Proof.
  intros Hs. revert i j. induction Hs as [|a l Hs IH Hall]; intros i j Hij Hx Hy.
  - discriminate.
  - destruct i as [|i]; destruct j as [|j]; cbn in Hx, Hy; try lia.
    + injection Hx as <-. injection Hy as <-. apply Qcle_refl.
    + injection Hx as <-. rewrite List.Forall_forall in Hall.
      apply Hall, list_elem_of_In, (list_elem_of_lookup_2 _ j), Hy.
    + apply (IH i j); [lia | assumption | assumption].
Qed.

(** The maximum and the minimum are the two ends of the sorted array. *)
Lemma Math_max_last (times : list Qc) :
  times ≠ [] →
  sortAscending times !! (length times - 1)%nat = Some (Math_max (sortAscending times)).
Proof.
  intros Hne.
  assert (Hs : sortAscending times ≠ []).
  { intros E. apply Hne, length_zero_iff_nil.
    rewrite <- sortAscending_length, E. reflexivity. }
  destruct (Math_max_spec _ Hs) as [Hin Hub].
  destruct (lookup_lt_is_Some_2 (sortAscending times) (length times - 1)%nat) as [y Hy].
  { rewrite sortAscending_length. destruct times; [done | cbn; lia]. }
  rewrite Hy. f_equal. apply Qcle_antisym.
  - apply Hub, (list_elem_of_lookup_2 _ _ _ Hy).
  - apply list_elem_of_lookup_1 in Hin as [i Hi].
    apply (StronglySorted_lookup_le _ i (length times - 1) _ _
             (sortAscending_StronglySorted times)); [|exact Hi|exact Hy].
    apply lookup_lt_Some in Hi. rewrite sortAscending_length in Hi. lia.
Qed.

Lemma Math_min_first (times : list Qc) :
  times ≠ [] →
  sortAscending times !! 0%nat = Some (Math_min (sortAscending times)).
Proof.
  intros Hne.
  assert (Hs : sortAscending times ≠ []).
  { intros E. apply Hne, length_zero_iff_nil.
    rewrite <- sortAscending_length, E. reflexivity. }
  destruct (Math_min_spec _ Hs) as [Hin Hlb].
  destruct (lookup_lt_is_Some_2 (sortAscending times) 0%nat) as [y Hy].
  { rewrite sortAscending_length. destruct times; [done | cbn; lia]. }
  rewrite Hy. f_equal. apply Qcle_antisym.
  - apply list_elem_of_lookup_1 in Hin as [i Hi].
    apply (StronglySorted_lookup_le _ 0 i _ _
             (sortAscending_StronglySorted times)); [lia|exact Hy|exact Hi].
  - apply Hlb, (list_elem_of_lookup_2 _ _ _ Hy).
Qed.

(** What the summary reads from the sorted successful times, by position. *)
Lemma summary_positions (results : list PerformanceMetric) (report : PerformanceReport) :
  arrayLength (length results) →
  generateReport results = inr report →
  let times := successfulTimes results in
  let n := length times in
  let s := summary report in
  (0 < n)%nat ∧
  times !! 0%nat = Some (Summary.minResponseTime s) ∧
  times !! (n / 2)%nat = Some (Summary.p50ResponseTime s) ∧
  times !! (n * 95 / 100)%nat = Some (Summary.p95ResponseTime s) ∧
  times !! (n * 99 / 100)%nat = Some (Summary.p99ResponseTime s) ∧
  times !! (n - 1)%nat = Some (Summary.maxResponseTime s).
Proof.
  intros Hlen Hrep times n s.
  apply generateReport_fields in Hrep
    as (_ & Hgood & _ & _ & Hp50 & Hp95 & Hp99 & Hmin & Hmax & _).
  fold times in Hp50, Hp95, Hp99, Hmin, Hmax. fold s in Hp50, Hp95, Hp99, Hmin, Hmax.
  assert (Hal : arrayLength n).
  { apply (arrayLength_le _ (length results)); [|exact Hlen].
    unfold n, times. rewrite successfulTimes_length. apply successfulOf_length. }
  assert (Hne : times ≠ []) by (by apply successfulTimes_nonempty).
  assert (Hraw : map responseTime (successfulOf results) ≠ []).
  { intros E. apply Hgood. by destruct (successfulOf results). }
  destruct (percentile_0_5 times Hal Hne) as (x50 & H50 & _ & E50).
  destruct (percentile_0_95 times Hal Hne) as (x95 & H95 & _ & E95).
  destruct (percentile_0_99 times Hal Hne) as (x99 & H99 & _ & E99).
  fold n in H50, H95, H99.
  rewrite Hp50, Hp95, Hp99, Hmin, Hmax, E50, E95, E99.
  split; [unfold n; destruct times; [done | cbn; lia]|].
  split; [apply Math_min_first, Hraw|].
  split; [exact H50|]. split; [exact H95|]. split; [exact H99|].
  unfold n, times, successfulTimes. rewrite sortAscending_length.
  apply Math_max_last, Hraw.
Qed.

(** The three ranks, in order, below the length. *)
Lemma rank_order (n : nat) :
  (0 < n)%nat →
  (n / 2 ≤ n * 95 / 100)%nat ∧ (n * 95 / 100 ≤ n * 99 / 100)%nat ∧
  (n * 99 / 100 ≤ n - 1)%nat.
Proof.
  intros Hn. pose proof (Nat2Z.is_nonneg n) as Hz.
  split; [|split]; apply Nat2Z.inj_le;
    rewrite ?Nat2Z.inj_sub, ?Nat2Z.inj_div, ?Nat2Z.inj_mul by lia;
    cbn [Z.of_nat Pos.of_succ_nat Pos.succ];
    Z.div_mod_to_equations; lia.
Qed.

(** X1: the percentiles of a report are ordered between the extremes. *)
Theorem percentiles_ordered (results : list PerformanceMetric) (report : PerformanceReport) :
  arrayLength (length results) →
  generateReport results = inr report →
  let s := summary report in
  Summary.minResponseTime s ≤ Summary.p50ResponseTime s ∧
  Summary.p50ResponseTime s ≤ Summary.p95ResponseTime s ∧
  Summary.p95ResponseTime s ≤ Summary.p99ResponseTime s ∧
  Summary.p99ResponseTime s ≤ Summary.maxResponseTime s.
Proof.
  intros Hlen Hrep s.
  destruct (summary_positions results report Hlen Hrep)
    as (Hn & Hmin & H50 & H95 & H99 & Hmax).
  fold s in Hmin, H50, H95, H99, Hmax.
  set (times := successfulTimes results) in *. set (n := length times) in *.
  pose proof (sortAscending_StronglySorted
                (map responseTime (successfulOf results))) as Hs.
  fold (successfulTimes results) in Hs. fold times in Hs.
  destruct (rank_order n Hn) as (I1 & I2 & I3).
  split; [apply (StronglySorted_lookup_le times 0 (n / 2) _ _ Hs); [lia|done|done]|].
  split; [apply (StronglySorted_lookup_le times _ _ _ _ Hs I1); done|].
  split; [apply (StronglySorted_lookup_le times _ _ _ _ Hs I2); done|].
  apply (StronglySorted_lookup_le times _ _ _ _ Hs I3); done.
Qed.

Lemma percentiles_ordered_witness :
  ∃ report,
    generateReport mixedResults = inr report ∧
    Summary.minResponseTime (summary report) ≤ Summary.p50ResponseTime (summary report) ∧
    Summary.p99ResponseTime (summary report) ≤ Summary.maxResponseTime (summary report).
Proof.
  assert (Hlen : arrayLength (length mixedResults)) by (vm_compute; reflexivity).
  assert (Hrun : ∃ report, generateReport mixedResults = inr report)
    by (eexists; vm_compute; reflexivity).
  destruct Hrun as [report Hrep]. exists report. split; [exact Hrep|].
  pose proof (percentiles_ordered mixedResults report Hlen Hrep) as H.
  cbv zeta in H. destruct H as (H1 & _ & _ & H4). split; [exact H1 | exact H4].
Defined.

Lemma mean_between (times : list Qc) :
  times ≠ [] →
  Math_min times ≤ sumOf times / num (length times) ∧
  sumOf times / num (length times) ≤ Math_max times.
Proof.
  intros Hne.
  destruct (Math_min_spec times Hne) as [_ Hlb].
  destruct (Math_max_spec times Hne) as [_ Hub].
  destruct (sumOf_bounds times (Math_min times) (Math_max times)) as [Hlo Hhi].
  { intros t Ht. split; [by apply Hlb | by apply Hub]. }
  apply quotient_bounds; [|exact Hlo|exact Hhi].
  intros E. apply Hne. by apply length_zero_iff_nil.
Qed.

Lemma average_bounds (results : list PerformanceMetric) (report : PerformanceReport) :
  generateReport results = inr report →
  Summary.minResponseTime (summary report) ≤ Summary.averageResponseTime (summary report) ∧
  Summary.averageResponseTime (summary report) ≤ Summary.maxResponseTime (summary report).
Proof.
  intros Hrep.
  apply generateReport_fields in Hrep
    as (_ & Hgood & _ & Havg & _ & _ & _ & Hmin & Hmax & _).
  rewrite Havg, Hmin, Hmax.
  apply mean_between. by apply successfulTimes_nonempty.
Qed.



Lemma successfulOf_all (results : list PerformanceMetric) :
  length (successfulOf results) = length results ↔
  ∀ r, r ∈ results → isSuccessful r = true.
Proof.
  unfold successfulOf. induction results as [|r rs IH]; cbn [List.filter length].
  - split; [intros _ r Hr; inversion Hr | reflexivity].
  - pose proof (List.filter_length_le isSuccessful rs) as Hle.
    destruct (isSuccessful r) eqn:Hr; cbn [length].
    + split.
      * intros H r' Hr'. apply elem_of_cons in Hr' as [->|Hin]; [exact Hr|].
        apply IH; [lia | exact Hin].
      * intros H. f_equal. apply IH. intros r' Hr'. apply H. by right.
    + split; [lia|]. intros H. specialize (H r ltac:(left)). congruence.
Qed.

(** X3: a report never shows a success rate of zero or an error rate of a
    hundred: 0 < successRate <= 100 and 0 <= errorRate < 100; the error rate
    is zero exactly when every sample is successful. *)
Theorem rates_in_range (results : list PerformanceMetric) (report : PerformanceReport) :
  generateReport results = inr report →
  let s := summary report in
  0 < Summary.successRate s ∧ Summary.successRate s ≤ dec 100 1 ∧
  0 ≤ Summary.errorRate s ∧ Summary.errorRate s < dec 100 1 ∧
  (Summary.errorRate s = 0 ↔ ∀ r, r ∈ results → isSuccessful r = true).
Proof.
  intros Hrep s.
  apply generateReport_fields in Hrep
    as (Hne & Hgood & _ & _ & _ & _ & _ & _ & _ & Hrate & Herr & _).
  fold s in Hrate, Herr.
  set (g := length (successfulOf results)) in *.
  set (t := length results) in *.
  assert (Hgt : (g ≤ t)%nat) by apply successfulOf_length.
  assert (Hg : g ≠ 0%nat) by (unfold g; by intros ?%length_zero_iff_nil).
  assert (Ht : t ≠ 0%nat) by lia.
  pose proof (num_pos g Hg) as Hgpos. pose proof (num_pos t Ht) as Htpos.
  assert (Htne : num t ≠ 0) by (intros E; rewrite E in Htpos; by apply Qclt_not_eq in Htpos).
  assert (Hfrac : 0 < num g / num t ∧ num g / num t ≤ 1).
  { split.
    - apply (Qcmult_lt_mono_pos_l _ _ (num t) Htpos).
      rewrite Qcmult_div_r, Qcmult_0_r by exact Htne. exact Hgpos.
    - apply (Qcmult_le_mono_pos_l _ _ (num t) Htpos).
      rewrite Qcmult_div_r, Qcmult_1_r by exact Htne. by apply num_le. }
  destruct Hfrac as [Hf0 Hf1].
  assert (Hs0 : 0 < Summary.successRate s).
  { rewrite Hrate. replace 0 with (0 * dec 100 1) by ring.
    apply Qcmult_lt_mono_pos_r; [apply hundred_pos | exact Hf0]. }
  assert (Hs1 : Summary.successRate s ≤ dec 100 1).
  { rewrite Hrate. replace (dec 100 1) with (1 * dec 100 1) at 2 by ring.
    apply Qcmult_le_mono_pos_r; [apply hundred_pos | exact Hf1]. }
  assert (Herr' : Summary.errorRate s = dec 100 1 - Summary.successRate s).
  { rewrite Herr, Hrate. apply complement_rate; assumption. }
  split; [exact Hs0|]. split; [exact Hs1|].
  split; [rewrite Herr'; apply Qcle_minus_iff in Hs1; exact Hs1|].
  split.
  { rewrite Herr'. apply Qclt_minus_iff.
    replace (dec 100 1 + - (dec 100 1 - Summary.successRate s))
      with (Summary.successRate s) by ring. exact Hs0. }
  rewrite <- successfulOf_all. fold g t. rewrite Herr. split.
  - intros E.
    assert (E' : num (t - g) = 0).
    { apply Qcmult_integral in E as [E|E]; [|discriminate].
      rewrite <- (Qcmult_div_r (num (t - g)) (num t) Htne), E. ring. }
    unfold num in E'. rewrite <- Z2Qc_inj_0 in E'. apply Z2Qc_inj in E'. lia.
  - intros E. rewrite E, Nat.sub_diag.
    replace (num 0) with 0 by (apply Qc_is_canon; reflexivity).
    unfold Qcdiv. ring.
Qed.

Lemma rates_in_range_witness :
  ∃ report,
    generateReport eightOfTen = inr report ∧
    0 < Summary.successRate (summary report) ∧
    Summary.errorRate (summary report) < dec 100 1.
Proof.
  assert (Hrun : ∃ report, generateReport eightOfTen = inr report)
    by (eexists; vm_compute; reflexivity).
  destruct Hrun as [report Hrep]. exists report. split; [exact Hrep|].
  pose proof (rates_in_range eightOfTen report Hrep) as H.
  cbv zeta in H. destruct H as (H1 & _ & _ & H4 & _). split; [exact H1 | exact H4].
Defined.

Lemma recommendations_ladder (results : list PerformanceMetric) (report : PerformanceReport) :
  generateReport results = inr report →
  recommendations report
    = recommendationLadder (Summary.averageResponseTime (summary report))
        (Summary.p95ResponseTime (summary report))
        (Summary.successRate (summary report)).
Proof.
  intros Hrep.
  apply generateReport_fields in Hrep
    as (_ & _ & _ & Havg & _ & Hp95 & _ & _ & _ & Hrate & _ & _ & _ & Hrec).
  rewrite Hrec, generateRecommendations_ladder, Havg, Hp95, Hrate. reflexivity.
Qed.

(** X4: the recommendations of a report are the ladder read on the figures
    the same report shows: its average, its p95 and its success rate. *)
Theorem recommendations_match_summary (results : list PerformanceMetric) (report : PerformanceReport) :
  generateReport results = inr report →
  let s := summary report in
  recommendations report
    = recommendationLadder (Summary.averageResponseTime s)
        (Summary.p95ResponseTime s) (Summary.successRate s) ∧
  (length (recommendations report) = 3%nat ∨ length (recommendations report) = 5%nat).
Proof.
  intros Hrep s.
  pose proof (recommendations_ladder results report Hrep) as H. fold s in H.
  split; [exact H|]. rewrite H. unfold recommendationLadder, affirmations.
  case_decide; [right | left]; reflexivity.
Qed.

Lemma recommendations_match_summary_witness :
  ∃ report,
    generateReport mixedResults = inr report ∧
    recommendations report
      = recommendationLadder (Summary.averageResponseTime (summary report))
          (Summary.p95ResponseTime (summary report))
          (Summary.successRate (summary report)).
Proof.
  assert (Hrun : ∃ report, generateReport mixedResults = inr report)
    by (eexists; vm_compute; reflexivity).
  destruct Hrun as [report Hrep]. exists report. split; [exact Hrep|].
  pose proof (recommendations_match_summary mixedResults report Hrep) as H.
  cbv zeta in H. destruct H as [H _]. exact H.
Defined.

(** X5: small samples.  With at most 20 successful samples the reported p95
    is the maximum, with at most 100 the reported p99 is the maximum, and
    with a single one every figure of the summary is that response time. *)
Theorem small_sample_percentiles (results : list PerformanceMetric) (report : PerformanceReport) :
  arrayLength (length results) →
  generateReport results = inr report →
  let n := length (successfulOf results) in
  let s := summary report in
  ((n ≤ 20)%nat → Summary.p95ResponseTime s = Summary.maxResponseTime s) ∧
  ((n ≤ 100)%nat → Summary.p99ResponseTime s = Summary.maxResponseTime s) ∧
  (n = 1%nat →
     Summary.minResponseTime s = Summary.maxResponseTime s ∧
     Summary.p50ResponseTime s = Summary.maxResponseTime s ∧
     Summary.averageResponseTime s = Summary.maxResponseTime s).
Proof.
  intros Hlen Hrep n s.
  destruct (summary_positions results report Hlen Hrep)
    as (Hn & Hmin & H50 & H95 & H99 & Hmax).
  pose proof (average_bounds results report Hrep) as [Hlo Hhi].
  fold s in Hmin, H50, H95, H99, Hmax, Hlo, Hhi.
  rewrite successfulTimes_length in Hn, H50, H95, H99, Hmax. fold n in Hn, H50, H95, H99, Hmax.
  pose proof (Nat2Z.is_nonneg n) as Hz.
  split; [|split].
  - intros Hsmall.
    assert (E : (n * 95 / 100 = n - 1)%nat).
    { apply Nat2Z.inj.
      rewrite ?Nat2Z.inj_sub, ?Nat2Z.inj_div, ?Nat2Z.inj_mul by lia.
      cbn [Z.of_nat Pos.of_succ_nat Pos.succ]. Z.div_mod_to_equations. lia. }
    rewrite E in H95. congruence.
  - intros Hsmall.
    assert (E : (n * 99 / 100 = n - 1)%nat).
    { apply Nat2Z.inj.
      rewrite ?Nat2Z.inj_sub, ?Nat2Z.inj_div, ?Nat2Z.inj_mul by lia.
      cbn [Z.of_nat Pos.of_succ_nat Pos.succ]. Z.div_mod_to_equations. lia. }
    rewrite E in H99. congruence.
  - intros E. rewrite E in H50, Hmax. cbn in H50, Hmax.
    assert (Emin : Summary.minResponseTime s = Summary.maxResponseTime s) by congruence.
    split; [exact Emin|]. split; [congruence|].
    apply Qcle_antisym; [exact Hhi|]. rewrite <- Emin. exact Hlo.
Qed.

Lemma small_sample_percentiles_witness :
  ∃ report,
    generateReport mixedResults = inr report ∧
    Summary.p95ResponseTime (summary report) = Summary.maxResponseTime (summary report) ∧
    Summary.p99ResponseTime (summary report) = Summary.maxResponseTime (summary report).
Proof.
  assert (Hlen : arrayLength (length mixedResults)) by (vm_compute; reflexivity).
  assert (Hrun : ∃ report, generateReport mixedResults = inr report)
    by (eexists; vm_compute; reflexivity).
  destruct Hrun as [report Hrep]. exists report. split; [exact Hrep|].
  pose proof (small_sample_percentiles mixedResults report Hlen Hrep) as H.
  cbv zeta in H. destruct H as (H95 & H99 & _).
  split; [apply H95 | apply H99]; vm_compute; lia.
Defined.

(** ** The order of the samples *)

Lemma filter_Permutation' {A} (f : A → bool) (l1 l2 : list A) :
  l1 ≡ₚ l2 → List.filter f l1 ≡ₚ List.filter f l2.
Proof.
  induction 1 as [|x l l' _ IH|x y l|l l' l'' _ IH1 _ IH2]; cbn [List.filter].
  - reflexivity.
  - destruct (f x); [by constructor | exact IH].
  - destruct (f x), (f y); (reflexivity || by constructor).
  - by etrans.
Qed.

Lemma sortAscending_unique (l1 l2 : list Qc) :
  l1 ≡ₚ l2 → sortAscending l1 = sortAscending l2.
Proof.
  intros Hp. apply (Sorted_unique Qcle).
  - apply sortAscending_Sorted.
  - apply sortAscending_Sorted.
  - rewrite !sortAscending_Permutation. exact Hp.
Qed.

Lemma successfulTimes_Permutation (results results' : list PerformanceMetric) :
  results ≡ₚ results' → successfulTimes results = successfulTimes results'.
Proof.
  intros Hp. unfold successfulTimes, successfulOf.
  apply sortAscending_unique, Permutation_map, filter_Permutation', Hp.
Qed.

Lemma breakdown_Permutation (results results' : list PerformanceMetric) :
  results ≡ₚ results' →
  breakdownOf <$> foldl collect ∅ results = breakdownOf <$> foldl collect ∅ results'.
Proof.
  intros Hp. apply map_eq. intros path.
  rewrite !lookup_fmap, !collect_group.
  assert (Hg : groupOf path results ≡ₚ groupOf path results')
    by (apply filter_Permutation', Hp).
  destruct (groupOf path results) as [|r rs] eqn:E1;
    destruct (groupOf path results') as [|r' rs'] eqn:E2.
  - reflexivity.
  - by apply Permutation_nil_cons in Hg.
  - symmetry in Hg. by apply Permutation_nil_cons in Hg.
  - cbn [fmap option_fmap option_map]. f_equal. unfold breakdownOf.
    cbn [Stats.requests Stats.responseTimes Stats.successCount].
    rewrite (sortAscending_unique (map responseTime (r :: rs))
               (map responseTime (r' :: rs'))) by (apply Permutation_map, Hg).
    rewrite (Permutation_length Hg).
    assert (Hs : length (successfulOf (r :: rs)) = length (successfulOf (r' :: rs')))
      by (apply Permutation_length, filter_Permutation', Hg).
    rewrite Hs. reflexivity.
Qed.

(** X6: the report does not depend on the order in which the samples were
    appended: two result sets with the same samples give the same summary,
    the same endpoint breakdown and the same recommendations; when one is
    rejected so is the other, with the same error. *)
Theorem report_order_independent (results results' : list PerformanceMetric) :
  results ≡ₚ results' →
  match generateReport results, generateReport results' with
  | inr report, inr report' =>
      summary report' = summary report ∧
      endpointBreakdown report' = endpointBreakdown report ∧
      recommendations report' = recommendations report ∧
      timeSeriesData report = results ∧ timeSeriesData report' = results'
  | inl e, inl e' => e = e'
  | _, _ => False
  end.
Proof.
  intros Hp.
  pose proof (successfulTimes_Permutation _ _ Hp) as Htimes.
  pose proof (Permutation_length Hp) as Hlen.
  pose proof (Permutation_length (filter_Permutation' isSuccessful _ _ Hp)) as Hgood.
  fold (successfulOf results) in Hgood. fold (successfulOf results') in Hgood.
  pose proof (breakdown_Permutation _ _ Hp) as Hbd.
  unfold generateReport.
  fold (successfulOf results) (successfulOf results').
  fold (successfulTimes results) (successfulTimes results').
  rewrite <- Htimes, <- Hlen, <- Hgood, <- Hbd.
  case_decide; [reflexivity|]. case_decide; [reflexivity|].
  cbn [summary endpointBreakdown recommendations timeSeriesData]. auto.
Qed.

Lemma report_order_independent_witness :
  ∃ report report',
    generateReport mixedResults = inr report ∧
    generateReport (reverse mixedResults) = inr report' ∧
    summary report' = summary report ∧
    recommendations report' = recommendations report.
Proof.
  assert (Hrun : ∃ report, generateReport mixedResults = inr report)
    by (eexists; vm_compute; reflexivity).
  assert (Hrun' : ∃ report, generateReport (reverse mixedResults) = inr report)
    by (eexists; vm_compute; reflexivity).
  destruct Hrun as [report Hrep]. destruct Hrun' as [report' Hrep'].
  exists report, report'. split; [exact Hrep|]. split; [exact Hrep'|].
  assert (Hperm : mixedResults ≡ₚ reverse mixedResults)
    by (symmetry; apply reverse_Permutation).
  pose proof (report_order_independent mixedResults (reverse mixedResults) Hperm) as H.
  rewrite Hrep, Hrep' in H. destruct H as (H1 & _ & H3 & _). split; [exact H1 | exact H3].
Defined.

(** ** The prober's footprint *)

(** X7: a probe sends exactly one request, with no retry, under the URL
    [baseUrl + path]; it draws no random number and leaves the result set and
    the output alone.  When the network takes no negative time the clock
    does not go back and the responseTime lies between zero and the time the
    probe took. *)
Theorem probe_footprint (baseUrl path verb : string) (w : World) :
  ∃ sample w',
    testSingleRequest baseUrl path verb w = (inr sample, w') ∧
    fetches w' = S (fetches w) ∧ draws w' = draws w ∧
    results w' = results w ∧ stdout w' = stdout w ∧
    sameEnvironment w w' ∧
    timestamp sample = (timeOrigin w + Qfloor (clock w'))%Z ∧
    (delaysNonNegative (nextExchange w baseUrl path verb) →
       clock w ≤ clock w' ∧
       0 ≤ responseTime sample ∧ responseTime sample ≤ clock w' - clock w).
Proof.
  rewrite testSingleRequest_run. cbn zeta. unfold delaysNonNegative, sameEnvironment.
  set (x := nextExchange w baseUrl path verb).
  assert (Hadd : ∀ a d : Qc, 0 ≤ d → a ≤ a + d).
  { intros a d Hd. rewrite <- (Qcplus_0_r a) at 1. by apply Qcplus_le_mono_l. }
  assert (Hsub : ∀ a d : Qc, a + d - a = d) by (intros; ring).
  destruct (fetched x) as [response|] eqn:Hf.
  - destruct (text response) as [content|];
      eexists _, _; (split; [reflexivity|]); cbn; split_and!; try reflexivity;
      intros [Hd Ht]; specialize (Ht response eq_refl).
    + rewrite Hsub. split_and!; [|exact Hd|].
      * etrans; [apply (Hadd _ _ Hd) | apply (Hadd _ _ Ht)].
      * replace (clock w + fetchDelay x + textDelay response - clock w)
          with (fetchDelay x + textDelay response) by ring.
        apply (Hadd _ _ Ht).
    + replace (clock w + fetchDelay x + textDelay response - clock w)
        with (fetchDelay x + textDelay response) by ring.
      split_and!; [| |reflexivity].
      * etrans; [apply (Hadd _ _ Hd) | apply (Hadd _ _ Ht)].
      * etrans; [exact Hd | apply (Hadd _ _ Ht)].
  - eexists _, _. split; [reflexivity|]. cbn. split_and!; try reflexivity.
    intros [Hd _].
    rewrite Hsub. split_and!; [apply (Hadd _ _ Hd) | exact Hd | reflexivity].
Qed.

Lemma probe_footprint_witness :
  ∃ sample w',
    testSingleRequest "http://localhost:3000" "/health" "GET" steadyWorld = (inr sample, w') ∧
    clock steadyWorld ≤ clock w' ∧ 0 ≤ responseTime sample.
Proof.
  destruct (probe_footprint "http://localhost:3000" "/health" "GET" steadyWorld)
    as (sample & w' & Hrun & _ & _ & _ & _ & _ & _ & Htime).
  exists sample, w'. split; [exact Hrun|].
  destruct Htime as (H1 & H2 & _); [apply steadyWorld_causal|].
  split; [exact H1 | exact H2].
Defined.

(** ** Selection by cumulative weight *)

Lemma totalWeightOf_acc (acc : Z) (endpoints : list Endpoint.t) :
  foldl (λ sum ep, sum + Endpoint.weight ep)%Z acc endpoints
  = (acc + totalWeightOf endpoints)%Z.
Proof.
  unfold totalWeightOf. revert acc.
  induction endpoints as [|ep rest IH]; intros acc; cbn [foldl]; [lia|].
  rewrite IH, (IH (0 + Endpoint.weight ep)%Z). lia.
Qed.

Lemma totalWeightOf_cons (ep : Endpoint.t) (rest : list Endpoint.t) :
  totalWeightOf (ep :: rest) = (Endpoint.weight ep + totalWeightOf rest)%Z.
Proof. unfold totalWeightOf at 1. cbn [foldl]. rewrite totalWeightOf_acc. lia. Qed.

Lemma totalWeightOf_nonneg (endpoints : list Endpoint.t) :
  (∀ ep, ep ∈ endpoints → (0 ≤ Endpoint.weight ep)%Z) → (0 ≤ totalWeightOf endpoints)%Z.
Proof.
  induction endpoints as [|ep rest IH]; intros Hall; [reflexivity|].
  rewrite totalWeightOf_cons.
  assert (0 ≤ Endpoint.weight ep)%Z by (apply Hall; left).
  assert (0 ≤ totalWeightOf rest)%Z by (apply IH; intros e He; apply Hall; by right).
  lia.
Qed.

Lemma walk_interval (before after : list Endpoint.t) (chosen : Endpoint.t) (random : Qc) :
  (∀ ep, ep ∈ before → (0 ≤ Endpoint.weight ep)%Z) →
  Qc_of_Z (totalWeightOf before) < random →
  random ≤ Qc_of_Z (totalWeightOf before + Endpoint.weight chosen) →
  walk random (before ++ chosen :: after) = Some chosen.
Proof.
  revert random. induction before as [|ep rest IH]; intros random Hall Hlo Hhi.
  - cbn [app walk]. rewrite decide_True; [reflexivity|].
    change (totalWeightOf []) with 0%Z in Hhi. rewrite Z.add_0_l in Hhi.
    apply Qcle_minus_iff.
    replace (0 + - (random - Qc_of_Z (Endpoint.weight chosen)))
      with (Qc_of_Z (Endpoint.weight chosen) + - random) by ring.
    by apply Qcle_minus_iff in Hhi.
  - cbn [app walk]. rewrite totalWeightOf_cons in Hlo, Hhi.
    rewrite <- Z.add_assoc, (Z2Qc_inj_add (Endpoint.weight ep)) in Hhi.
    rewrite Z2Qc_inj_add in Hlo.
    assert (Hrest : (0 ≤ totalWeightOf rest)%Z)
      by (apply totalWeightOf_nonneg; intros e He; apply Hall; by right).
    apply Z2Qc_inj_le in Hrest. rewrite Z2Qc_inj_0 in Hrest.
    set (wep := Qc_of_Z (Endpoint.weight ep)) in *.
    assert (Hlo' : Qc_of_Z (totalWeightOf rest) < random - wep).
    { apply (Qcplus_lt_mono_r _ _ wep).
      replace (random - wep + wep) with random by ring.
      rewrite Qcplus_comm. exact Hlo. }
    rewrite decide_False.
    + apply IH; [intros e He; apply Hall; by right | exact Hlo' |].
      apply (Qcplus_le_mono_r _ _ wep).
      replace (random - wep + wep) with random by ring.
      rewrite Qcplus_comm. exact Hhi.
    + apply Qclt_not_le. by eapply Qcle_lt_trans.
Qed.

(** X8: selection is by cumulative weight.  With non-negative weights in
    front of it, an entry is selected by every draw above the sum of the
    weights before it and up to that sum plus its own weight, an interval as
    wide as its weight; the first entry is also selected by every draw up to
    its weight, zero included. *)
Theorem selection_by_cumulative_weight
    (before after : list Endpoint.t) (chosen : Endpoint.t) (random : Qc) :
  (∀ ep, ep ∈ before → (0 ≤ Endpoint.weight ep)%Z) →
  (Qc_of_Z (totalWeightOf before) < random ∨ before = []) →
  random ≤ Qc_of_Z (totalWeightOf before + Endpoint.weight chosen) →
  selectWeighted (before ++ chosen :: after) random = Some chosen.
Proof.
  intros Hall Hlo Hhi. unfold selectWeighted.
  destruct Hlo as [Hlo| ->].
  - rewrite (walk_interval before after chosen random Hall Hlo Hhi). reflexivity.
  - cbn [app walk]. rewrite decide_True; [reflexivity|].
    change (totalWeightOf []) with 0%Z in Hhi. rewrite Z.add_0_l in Hhi.
    apply Qcle_minus_iff.
    replace (0 + - (random - Qc_of_Z (Endpoint.weight chosen)))
      with (Qc_of_Z (Endpoint.weight chosen) + - random) by ring.
    by apply Qcle_minus_iff in Hhi.
Qed.

Lemma selection_by_cumulative_weight_witness :
  selectWeighted getTestEndpoints (dec 21 1) = getTestEndpoints !! 1%nat.
Proof.
  unfold getTestEndpoints. cbn [lookup list_lookup].
  apply (selection_by_cumulative_weight [_] _ _ (dec 21 1)).
  - intros ep Hep. apply list_elem_of_singleton in Hep as ->. cbn. lia.
  - left. vm_compute. reflexivity.
  - vm_compute. discriminate.
Defined.

(** ** The fixed-count runs *)

Lemma testSingleRequest_effect (baseUrl path verb : string) (w : World) :
  ∃ sample w',
    testSingleRequest baseUrl path verb w = (inr sample, w') ∧
    endpoint sample = path ∧ method sample = verb ∧
    fetches w' = S (fetches w) ∧ draws w' = draws w ∧
    results w' = results w ∧ stdout w' = stdout w ∧
    sameEnvironment w w' ∧
    (delaysNonNegative (nextExchange w baseUrl path verb) → clock w ≤ clock w').
Proof.
  rewrite testSingleRequest_run. cbn zeta. unfold delaysNonNegative, sameEnvironment.
  set (x := nextExchange w baseUrl path verb).
  assert (Hadd : ∀ a d : Qc, 0 ≤ d → a ≤ a + d).
  { intros a d Hd. rewrite <- (Qcplus_0_r a) at 1. by apply Qcplus_le_mono_l. }
  destruct (fetched x) as [response|] eqn:Hf.
  - destruct (text response) as [content|];
      eexists _, _; (split; [reflexivity|]); cbn; split_and!; try reflexivity;
      intros [Hd Ht]; specialize (Ht response eq_refl);
      (etrans; [apply (Hadd _ _ Hd) | apply (Hadd _ _ Ht)]).
  - eexists _, _. split; [reflexivity|]. cbn. split_and!; try reflexivity.
    intros [Hd _]. apply (Hadd _ _ Hd).
Qed.

Lemma causal_same (w w' : World) : sameEnvironment w w' → causal w → causal w'.
Proof. intros (Hn & _ & _) Hc k url verb. rewrite Hn. apply Hc. Qed.

Lemma sameEnvironment_trans (w1 w2 w3 : World) :
  sameEnvironment w1 w2 → sameEnvironment w2 w3 → sameEnvironment w1 w3.
Proof.
  intros (A1 & A2 & A3) (B1 & B2 & B3). unfold sameEnvironment.
  split_and!; congruence.
Qed.

Lemma probeAndReport_effect (baseUrl : string) (requests interval i : nat)
    (chosen : Endpoint.t) (w : World) :
  ∃ sample w',
    probeAndReport baseUrl requests interval i chosen w = (inr (), w') ∧
    results w' = results w ++ [sample] ∧
    endpoint sample = Endpoint.path chosen ∧
    method sample = Endpoint.method chosen ∧
    fetches w' = S (fetches w) ∧ draws w' = draws w ∧
    sameEnvironment w w' ∧
    stdout w' = stdout w ++
      (if decide (((i + 1) mod interval)%nat = 0%nat)
       then [progressLineOf requests i (results w')] else []) ∧
    (causal w → clock w + dec 10 1 ≤ clock w').
Proof.
  unfold probeAndReport.
  destruct (testSingleRequest_effect baseUrl (Endpoint.path chosen)
              (Endpoint.method chosen) w)
    as (sample & w2 & Hprobe & Hep & Hverb & Hf & Hd & Hres & Hout & Henv & Hclock).
  rewrite (bind_run _ _ _ _ _ Hprobe).
  rewrite (bind_run _ _ w2 (withResults (results w2 ++ [sample]) w2) ())
    by reflexivity.
  set (w3 := withResults (results w2 ++ [sample]) w2).
  assert (Hmono : causal w → clock w + dec 10 1 ≤ clock w2 + dec 10 1).
  { intros Hc. apply Qcplus_le_mono_r, Hclock, Hc. }
  exists sample.
  case_decide as Hmod.
  - rewrite (bind_run _ _ w3 (withStdout (stdout w3 ++ [progressLineOf requests i (results w3)]) w3) ()).
    2:{ rewrite (bind_run _ _ w3 w3 (results w3)) by reflexivity. reflexivity. }
    eexists. split; [reflexivity|]. cbn. rewrite Hres, Hout.
    split_and!; try done.
  - rewrite (bind_run _ _ w3 w3 ()) by reflexivity.
    eexists. split; [reflexivity|]. cbn. rewrite Hres, Hout, app_nil_r.
    split_and!; try done.
Qed.

Lemma benchmarkIteration_effect (baseUrl : string) (requests interval i : nat) (w : World) :
  ∃ w', benchmarkIteration baseUrl requests interval i w = (inr (), w') ∧
        stepEffect getTestEndpoints requests interval i w w'.
Proof.
  destruct (selectRandomEndpoint_run w) as (chosen & Hsel & Hin & _).
  destruct (probeAndReport_effect baseUrl requests interval i chosen (countDraw w))
    as (sample & w' & Hrun & Hres & Hep & Hverb & Hf & Hd & Henv & Hout & Hclock).
  exists w'. split.
  - change (benchmarkIteration baseUrl requests interval i)
      with (selectRandomEndpoint ≫= λ selected,
              match selected with
              | None => throw (TypeError "Cannot read properties of undefined (reading 'path')")
              | Some endpoint => probeAndReport baseUrl requests interval i endpoint
              end).
    rewrite (bind_run _ _ _ _ _ Hsel). exact Hrun.
  - exists sample, chosen. split_and!; try done.
Qed.

Lemma forEach_effect (body : nat → M unit) (catalog : list Endpoint.t)
    (requests interval : nat) :
  (∀ i w, ∃ w', body i w = (inr (), w') ∧ stepEffect catalog requests interval i w w') →
  ∀ len start w,
    length (results w) = start →
    ∃ w', forEach (seq start len) body w = (inr (), w') ∧
          loopEffect catalog requests interval start len w w'.
Proof.
  intros Hbody. induction len as [|len IH]; intros start w Hstart.
  - exists w. split; [reflexivity|]. exists []. cbn.
    rewrite !app_nil_r, !Nat.add_0_r. unfold sameEnvironment. split_and!; try done.
    + intros r Hr. inversion Hr.
    + intros _. replace (num 0) with 0 by (apply Qc_is_canon; reflexivity).
      rewrite Qcmult_0_l, Qcplus_0_r. reflexivity.
  - destruct (Hbody start w) as (w1 & Hstep & sample & chosen & Hres1 & Hin & Hep
                                 & Hverb & Hf1 & Hd1 & Henv1 & Hout1 & Hclock1).
    destruct (IH (S start) w1) as (w2 & Hrest & samples & Hres2 & Hlen & Hcat & Hf2
                                   & Hd2 & Henv2 & Hout2 & Hclock2).
    { rewrite Hres1, length_app, Hstart. cbn. lia. }
    exists w2. cbn [seq forEach]. rewrite (bind_run _ _ _ _ _ Hstep).
    split; [exact Hrest|]. exists (sample :: samples).
    assert (Hres : results w2 = results w ++ sample :: samples)
      by (rewrite Hres2, Hres1, <- app_assoc; reflexivity).
    split_and!.
    + exact Hres.
    + cbn. by rewrite Hlen.
    + intros r Hr. apply elem_of_cons in Hr as [Heq|Hr]; [subst r; eauto | by apply Hcat].
    + lia.
    + lia.
    + by eapply sameEnvironment_trans.
    + rewrite Hout2, Hout1, <- app_assoc. f_equal.
      cbn [seq List.filter]. replace (start + 1)%nat with (S start) by lia.
      assert (Htake : take (S start) (results w2) = results w1).
      { rewrite Hres2. rewrite take_app_length'; [reflexivity|].
        rewrite Hres1, length_app, Hstart. cbn. lia. }
      destruct (decide ((S start mod interval)%nat = 0%nat)) as [Hmod|Hmod].
      * rewrite (proj2 (Nat.eqb_eq _ _) Hmod). cbn [map app].
        rewrite Htake. replace (S start - 1)%nat with start by lia. reflexivity.
      * rewrite (proj2 (Nat.eqb_neq _ _) Hmod). reflexivity.
    + intros Hc. rewrite num_S.
      etrans; [|apply Hclock2, (causal_same w w1 Henv1 Hc)].
      replace (clock w + (num len + 1) * dec 10 1)
        with (clock w + dec 10 1 + num len * dec 10 1) by ring.
      apply Qcplus_le_mono_r, Hclock1, Hc.
Qed.

(** The run after its loop: what [generateReport] says about the samples. *)
Lemma run_outcome (body : nat → M unit) (catalog : list Endpoint.t)
    (requests : nat) (w : World) :
  (∀ i w, ∃ w', body i w = (inr (), w') ∧
                stepEffect catalog requests (progressIntervalOf requests) i w w') →
  ∃ w',
    (setResults [] ≫= λ _,
       forEach (seq 0 requests) body ≫= λ _,
       getResults ≫= λ rs,
       match generateReport rs with
       | inl e => throw e
       | inr report => mret report
       end) w = (generateReport (results w'), w') ∧
    loopEffect catalog requests (progressIntervalOf requests) 0 requests
      (withResults [] w) w'.
Proof.
  intros Hbody.
  destruct (forEach_effect body catalog requests (progressIntervalOf requests) Hbody
              requests 0%nat (withResults [] w) eq_refl) as (w' & Hloop & Heff).
  exists w'. split; [|exact Heff].
  rewrite (bind_run _ _ w (withResults [] w) ()) by reflexivity.
  rewrite (bind_run _ _ _ _ _ Hloop).
  rewrite (bind_run _ _ w' w' (results w')) by reflexivity.
  destruct (generateReport (results w')); reflexivity.
Qed.

Lemma runQuickBenchmark_effect (baseUrl : string) (requests : nat) (w : World) :
  ∃ w',
    runQuickBenchmark baseUrl requests w = (generateReport (results w'), w') ∧
    loopEffect getTestEndpoints requests (progressIntervalOf requests) 0 requests
      (withResults [] w) w'.
Proof.
  apply (run_outcome (benchmarkIteration baseUrl requests (progressIntervalOf requests))).
  intros i w0. apply benchmarkIteration_effect.
Qed.


(** X10: every sample of a quick benchmark is a GET request for a path of
    the default catalog; the run sends exactly one request and draws exactly
    one random number per sample, and on a network that takes no negative
    time it lasts at least 10 ms per request. *)
Theorem quick_benchmark_footprint (baseUrl : string) (requests : nat) (w : World) :
  let w' := snd (runQuickBenchmark baseUrl requests w) in
  (∀ r, r ∈ results w' →
     method r = "GET" ∧
     ∃ chosen, chosen ∈ getTestEndpoints ∧ endpoint r = Endpoint.path chosen) ∧
  fetches w' = (fetches w + requests)%nat ∧
  draws w' = (draws w + requests)%nat ∧
  (causal w → clock w + num requests * dec 10 1 ≤ clock w').
Proof.
  destruct (runQuickBenchmark_effect baseUrl requests w)
    as (w' & Hrun & samples & Hres & Hlen & Hcat & Hf & Hd & Henv & Hout & Hclock).
  rewrite Hrun. cbn [snd]. cbn in Hres, Hf, Hd, Hclock.
  split_and!; try done.
  intros r Hr. rewrite Hres in Hr. destruct (Hcat r Hr) as (chosen & Hin & Hep & Hverb).
  split; [|eauto]. rewrite Hverb.
  unfold getTestEndpoints in Hin.
  repeat (apply elem_of_cons in Hin as [->|Hin]; [reflexivity|]).
  inversion Hin.
Qed.

Lemma quick_benchmark_footprint_witness :
  let w' := snd (runQuickBenchmark "http://localhost:3000" 3 steadyWorld) in
  fetches w' = 3%nat ∧ draws w' = 3%nat ∧ dec 30 1 ≤ clock w'.
Proof.
  pose proof (quick_benchmark_footprint "http://localhost:3000" 3 steadyWorld) as H.
  cbv zeta in H |- *. destruct H as (_ & Hf & Hd & Hclock).
  split; [exact Hf|]. split; [exact Hd|].
  apply Hclock, steadyWorld_causal.
Defined.

(** X11: each progress line of a quick benchmark, written after the [k]-th
    request, shows [k / requests * 100] percent and the mean response time
    of the first [k] samples, failures included. *)
Theorem quick_benchmark_progress_lines (baseUrl : string) (requests : nat) (w : World) :
  let w' := snd (runQuickBenchmark baseUrl requests w) in
  stdout w' = stdout w ++
    map (λ k, {| percent := num k / num requests * dec 100 1;
                 completed := k;
                 requested := requests;
                 average := sumOf (map responseTime (take k (results w'))) / num k |})
        (multiplesOf (progressIntervalOf requests) requests).
Proof.
  destruct (runQuickBenchmark_effect baseUrl requests w)
    as (w' & Hrun & samples & Hres & Hlen & _ & _ & _ & _ & Hout & _).
  rewrite Hrun. cbn [snd]. cbn in Hres, Hout. rewrite Hout. f_equal.
  unfold multiplesOf. apply map_ext_in. intros k Hk.
  apply List.filter_In in Hk as [Hk _]. apply in_seq in Hk.
  unfold progressLineOf. replace (k - 1 + 1)%nat with k by lia.
  rewrite length_take, Hres, Hlen. replace (k `min` requests)%nat with k by lia.
  reflexivity.
Qed.

(** ** The validation run *)

Lemma selectInline_walk (random : Qc) (first : Endpoint.t) (endpoints : list Endpoint.t) :
  selectInline random first endpoints = default first (walk random endpoints).
Proof.
  revert random. induction endpoints as [|ep rest IH]; intros random; [reflexivity|].
  cbn [selectInline walk]. case_decide; [reflexivity | apply IH].
Qed.

(** X12: the selection loop written out in the validation run picks the
    entry the weighted selector picks on the same catalog and draw: the
    first entry reached by the walk, the first entry of the catalog
    otherwise. *)
Theorem inline_selection_agrees (first : Endpoint.t) (rest : list Endpoint.t) (random : Qc) :
  Some (selectInline random first (first :: rest))
  = selectWeighted (first :: rest) random.
Proof.
  rewrite selectInline_walk. unfold selectWeighted.
  destruct (walk random (first :: rest)); reflexivity.
Qed.

Lemma selectInline_in (first : Endpoint.t) (rest : list Endpoint.t) (random : Qc) :
  selectInline random first (first :: rest) ∈ first :: rest.
Proof.
  destruct (selectWeighted_spec (first :: rest) random) as (chosen & Hsel & Hin & _);
    [done|].
  rewrite selectInline_walk. unfold selectWeighted in Hsel.
  destruct (walk random (first :: rest)); cbn in *; congruence.
Qed.

Lemma cambridgeIteration_effect (baseUrl : string) (requests interval i : nat) (w : World) :
  ∃ w', cambridgeIteration baseUrl requests interval i w = (inr (), w') ∧
        stepEffect cambridgeEndpoints requests interval i w w'.
Proof.
  set (chosen := selectInline
                   (entropy w (draws w) * Qc_of_Z (totalWeightOf cambridgeEndpoints))
                   cambridgeHome cambridgeEndpoints).
  destruct (probeAndReport_effect baseUrl requests interval i chosen (countDraw w))
    as (sample & w' & Hrun & Hres & Hep & Hverb & Hf & Hd & Henv & Hout & Hclock).
  exists w'. split.
  - change (cambridgeIteration baseUrl requests interval i)
      with (Math_random ≫= λ r,
              probeAndReport baseUrl requests interval i
                (selectInline (r * Qc_of_Z (totalWeightOf cambridgeEndpoints))
                   cambridgeHome cambridgeEndpoints)).
    rewrite (bind_run _ _ w (countDraw w) (entropy w (draws w))) by reflexivity.
    exact Hrun.
  - exists sample, chosen. split_and!; try done.
    apply selectInline_in.
Qed.

Lemma runCambridgeValidation_effect (baseUrl : string) (requests : nat) (w : World) :
  ∃ w',
    runCambridgeValidation baseUrl requests w = (generateReport (results w'), w') ∧
    loopEffect cambridgeEndpoints requests (progressIntervalOf requests) 0 requests
      (withResults [] w) w'.
Proof.
  apply (run_outcome (cambridgeIteration baseUrl requests (progressIntervalOf requests))).
  intros i w0. apply cambridgeIteration_effect.
Qed.

(** X13: a validation run probes only the six paths of its own catalog, all
    with GET, never the protected or unimplemented ones; it ends with
    exactly [requests] fresh samples, returns what report generation makes
    of them, and writes its progress lines at the same iterations as the
    quick benchmark. *)
Theorem validation_run (baseUrl : string) (requests : nat) (w : World) :
  ∃ outcome w' lines,
    runCambridgeValidation baseUrl requests w = (outcome, w') ∧
    outcome = generateReport (results w') ∧
    length (results w') = requests ∧
    (∀ r, r ∈ results w' →
       method r = "GET" ∧
       endpoint r ∈ ["/"; "/api/analytics"; "/api/blogs"; "/api/projects";
                     "/api/roadmap"; "/health"]) ∧
    fetches w' = (fetches w + requests)%nat ∧
    draws w' = (draws w + requests)%nat ∧
    stdout w' = stdout w ++ lines ∧
    progressAt lines = multiplesOf (Nat.max 1 (requests / 10)) requests.
Proof.
  destruct (runCambridgeValidation_effect baseUrl requests w)
    as (w' & Hrun & samples & Hres & Hlen & Hcat & Hf & Hd & Henv & Hout & Hclock).
  cbn in Hres, Hf, Hd, Hout.
  eexists _, w', _. split; [exact Hrun|]. split; [reflexivity|].
  split; [rewrite Hres; exact Hlen|].
  split_and!; try done.
  - intros r Hr. rewrite Hres in Hr. destruct (Hcat r Hr) as (chosen & Hin & Hep & Hverb).
    rewrite Hverb, Hep. unfold cambridgeEndpoints, cambridgeHome in Hin.
    repeat (apply elem_of_cons in Hin as [->|Hin];
            [split; [reflexivity | apply list_elem_of_In; cbn; auto 10]|]).
    inversion Hin.
  - unfold progressAt, multiplesOf. rewrite map_map. cbn [completed progressLineOf].
    fold (progressIntervalOf requests).
    set (l := List.filter _ _).
    assert (Hl : ∀ k, In k l → (1 ≤ k)%nat).
    { intros k Hk. apply List.filter_In in Hk as [Hk _]. apply in_seq in Hk. lia. }
    clearbody l. induction l as [|k l IH]; [reflexivity|].
    cbn [map]. rewrite IH by (intros k' Hk'; apply Hl; by right).
    f_equal. specialize (Hl k ltac:(by left)). lia.
Qed.

(** ** The constructor *)

Lemma append_cons (c : Ascii.ascii) (s t : string) :
  String c s +:+ t = String c (s +:+ t).
Proof. reflexivity. Qed.

Lemma removeTrailingSlash_cons (c c' : Ascii.ascii) (s : string) :
  removeTrailingSlash (String c (String c' s)) =
  String c (removeTrailingSlash (String c' s)).
Proof. reflexivity. Qed.

Lemma removeTrailingSlash_app (s : string) : removeTrailingSlash (s +:+ "/") = s.
Proof.
  induction s as [|c s IH]; [reflexivity|].
  destruct s as [|c' s']; [reflexivity|].
  rewrite !append_cons, removeTrailingSlash_cons, <- append_cons. by rewrite IH.
Qed.

Lemma removeTrailingSlash_cases (s : string) :
  removeTrailingSlash s = s ∨ s = removeTrailingSlash s +:+ "/".
Proof.
  induction s as [|c s IH]; [by left|].
  destruct s as [|c' s'].
  - cbn [removeTrailingSlash]. case_decide as E; [right; by rewrite E | by left].
  - rewrite removeTrailingSlash_cons.
    destruct IH as [-> | E]; [by left|].
    right. rewrite append_cons. by rewrite <- E.
Qed.

(** X14: an instance constructed with a base URL that ends in a slash asks
    for the same URLs as one constructed without that slash; exactly one
    slash is dropped, and a base URL without a trailing slash is kept as it
    is. *)
Theorem constructor_trailing_slash (baseUrl path : string) :
  requestUrl (baseUrl +:+ "/") path = baseUrl +:+ path ∧
  removeTrailingSlash (baseUrl +:+ "//") = baseUrl +:+ "/" ∧
  ((∀ prefix, baseUrl ≠ prefix +:+ "/") → requestUrl baseUrl path = baseUrl +:+ path).
Proof.
  unfold requestUrl. split; [by rewrite removeTrailingSlash_app|]. split.
  - replace (baseUrl +:+ "//") with ((baseUrl +:+ "/") +:+ "/").
    + apply removeTrailingSlash_app.
    + induction baseUrl as [|c s IH]; [reflexivity|].
      rewrite !append_cons. by rewrite IH.
  - intros Hno. destruct (removeTrailingSlash_cases baseUrl) as [-> | E]; [done|].
    by destruct (Hno _ E).
Qed.

Lemma constructor_trailing_slash_witness :
  requestUrl "http://localhost:3000/" "/health" = "http://localhost:3000/health" ∧
  requestUrl "http://localhost:3000" "/health" = "http://localhost:3000/health".
Proof.
  destruct (constructor_trailing_slash "http://localhost:3000" "/health")
    as (Hslash & _ & Hplain).
  split; [exact Hslash|]. apply Hplain.
  intros prefix E.
  assert (Hp : removeTrailingSlash "http://localhost:3000" = prefix)
    by (rewrite E; apply removeTrailingSlash_app).
  vm_compute in Hp. subst prefix. discriminate E.
Defined.

(** ** The report display *)

Lemma length_spaces (n : nat) : String.length (spaces n) = n.
Proof.
  induction n as [|n IH]; [reflexivity|].
  cbn [spaces String.length]. by rewrite IH.
Qed.

Lemma length_append (s t : string) :
  String.length (s +:+ t) = (String.length s + String.length t)%nat.
Proof.
  induction s as [|c s IH]; [reflexivity|].
  rewrite append_cons. cbn [String.length]. by rewrite IH.
Qed.

Lemma length_substring (n : nat) (s : string) :
  (n ≤ String.length s)%nat → String.length (String.substring 0 n s) = n.
Proof.
  revert s. induction n as [|n IH]; intros s Hn.
  - by destruct s.
  - destruct s as [|c s]; [cbn in Hn; lia|]. cbn. rewrite IH; [done|]. cbn in Hn. lia.
Qed.

Lemma substring_prefix (n : nat) (s : string) :
  ∃ rest, s = String.substring 0 n s +:+ rest.
Proof.
  revert s. induction n as [|n IH]; intros s.
  - exists s. by destruct s.
  - destruct s as [|c s]; [by exists EmptyString|].
    destruct (IH s) as [rest E]. exists rest.
    cbn [String.substring]. rewrite append_cons. by rewrite <- E.
Qed.

(** X15: the endpoint column of the breakdown table is 26 characters wide
    for every endpoint: a path of at most 26 characters is shown whole and
    padded with spaces, a longer one is cut to its first 23 characters and
    three dots. *)
Theorem endpoint_column_width (endpoint : string) :
  String.length (endpointDisplay endpoint) = 26%nat ∧
  ((String.length endpoint ≤ 26)%nat →
     endpointDisplay endpoint = endpoint +:+ spaces (26 - String.length endpoint)) ∧
  ((26 < String.length endpoint)%nat →
     ∃ kept rest, endpoint = kept +:+ rest ∧ String.length kept = 23%nat ∧
                  endpointDisplay endpoint = kept +:+ "...").
Proof.
  unfold endpointDisplay, padEnd. split; [|split].
  - case_decide as Hlong.
    + rewrite length_append, length_substring by lia. reflexivity.
    + rewrite length_append, length_spaces. lia.
  - intros Hshort. case_decide; [lia|reflexivity].
  - intros Hlong. case_decide; [|lia].
    destruct (substring_prefix 23 endpoint) as [rest E].
    exists (String.substring 0 23 endpoint), rest.
    split; [exact E|]. split; [apply length_substring; lia | reflexivity].
Qed.

(** X16: the validation section agrees with the recommendations.  The two
    closing recommendations are present exactly when the section shows both
    the sub-100ms and the enterprise-grade verdict, and whenever the
    sub-100ms verdict is shown the local-first line shows its positive
    verdict as well. *)
Theorem validation_section_agrees (results : list PerformanceMetric) (report : PerformanceReport) :
  generateReport results = inr report →
  (length (recommendations report) = 5%nat ↔
     verdictFramework report = "SUB-100MS VALIDATED ✅" ∧
     verdictProduction report = "ENTERPRISE GRADE ✅") ∧
  (length (recommendations report) = 3%nat ↔
     verdictFramework report = "ABOVE 100MS ⚠️" ∨
     verdictProduction report = "DEVELOPMENT GRADE") ∧
  (verdictFramework report = "SUB-100MS VALIDATED ✅" →
     verdictLocalFirst report = "5-20X FASTER THAN CLOUD ✅").
Proof.
  intros Hrep. rewrite (recommendations_ladder results report Hrep).
  unfold recommendationLadder, affirmations, verdictFramework, verdictProduction,
    verdictLocalFirst.
  set (mean := Summary.averageResponseTime (summary report)).
  set (rate := Summary.successRate (summary report)).
  assert (H200 : mean < dec 100 1 → mean < dec 200 1).
  { intros H. eapply Qclt_trans; [exact H | reflexivity]. }
  destruct (decide (mean < dec 100 1)) as [Hm|Hm];
    destruct (decide (dec 99 1 < rate)) as [Hr|Hr];
    destruct (decide (mean < dec 100 1 ∧ dec 99 1 < rate)) as [Hb|Hb];
    try (exfalso; tauto); cbn [length app];
    (split; [|split]).
  all: try (intros _; destruct (decide (mean < dec 200 1)); [reflexivity | tauto]).
  all: try (intros; discriminate).
  all: split.
  all: try discriminate.
  all: try (intros [? ?]; discriminate).
  all: try (intros [?|?]; discriminate).
  all: try (intros _; split; reflexivity).
  all: try (intros _; reflexivity).
  all: try (intros _; left; reflexivity).
  all: try (intros _; right; reflexivity).
Qed.

Lemma validation_section_agrees_witness :
  ∃ report,
    generateReport mixedResults = inr report ∧
    (verdictFramework report = "SUB-100MS VALIDATED ✅" →
       verdictLocalFirst report = "5-20X FASTER THAN CLOUD ✅").
Proof.
  assert (Hrun : ∃ report, generateReport mixedResults = inr report)
    by (eexists; vm_compute; reflexivity).
  destruct Hrun as [report Hrep]. exists report. split; [exact Hrep|].
  destruct (validation_section_agrees mixedResults report Hrep) as (_ & _ & H). exact H.
Defined.

(** ** Real-time monitoring *)

Lemma Qfloor_unique (x : Qc) (z : Z) :
  Qc_of_Z z ≤ x → x < Qc_of_Z (z + 1) → Qfloor x = z.
Proof.
  intros Hlo Hhi.
  assert (H1 : (z ≤ Qfloor x)%Z).
  { rewrite <- (Qfloor_Z z) at 1. apply Qfloor_resp_le. exact Hlo. }
  assert (H2 : (Qfloor x < z + 1)%Z).
  { rewrite Zlt_Qlt. eapply Qle_lt_trans; [apply Qfloor_le | exact Hhi]. }
  lia.
Qed.

Lemma Qfloor_add_Z (x : Qc) (z : Z) : Qfloor (x + Qc_of_Z z)%Qc = (Qfloor x + z)%Z.
Proof.
  apply Qfloor_unique.
  - rewrite Z2Qc_inj_add. apply Qcplus_le_mono_r. apply (Qfloor_le x).
  - replace (Qfloor x + z + 1)%Z with ((Qfloor x + 1) + z)%Z by lia.
    rewrite Z2Qc_inj_add. apply Qcplus_lt_mono_r. apply (Qlt_floor x).
Qed.

Lemma lastTen_length {A} (l : list A) : length (lastTen l) = Nat.min 10 (length l).
Proof. unfold lastTen. rewrite length_drop. lia. Qed.

Lemma lastTen_suffix {A} (l : list A) : take (length l - 10) l ++ lastTen l = l.
Proof. apply take_drop. Qed.

Lemma lastTen_snoc {A} (l : list A) (x : A) :
  ∃ before, lastTen (l ++ [x]) = before ++ [x].
Proof.
  unfold lastTen. rewrite length_app. cbn [length].
  exists (drop (length l + 1 - 10) l).
  rewrite drop_app_le by lia. reflexivity.
Qed.

Lemma rate_bounds (g t : nat) :
  (g ≤ t)%nat → t ≠ 0%nat →
  0 ≤ num g / num t * dec 100 1 ∧ num g / num t * dec 100 1 ≤ dec 100 1 ∧
  (g ≠ 0%nat → 0 < num g / num t * dec 100 1).
Proof.
  intros Hgt Ht.
  pose proof (num_pos t Ht) as Htpos.
  assert (Htne : num t ≠ 0) by (intros E; rewrite E in Htpos; by apply Qclt_not_eq in Htpos).
  assert (Hpos : g ≠ 0%nat → 0 < num g / num t * dec 100 1).
  { intros Hg. replace 0 with (0 * dec 100 1) by ring.
    apply Qcmult_lt_mono_pos_r; [apply hundred_pos|].
    apply (Qcmult_lt_mono_pos_l _ _ (num t) Htpos).
    rewrite Qcmult_div_r, Qcmult_0_r by exact Htne. by apply num_pos. }
  split; [|split; [|exact Hpos]].
  - destruct (decide (g = 0%nat)) as [->|Hg]; [|by apply Qclt_le_weak, Hpos].
    replace (num 0) with 0 by (apply Qc_is_canon; reflexivity).
    unfold Qcdiv. rewrite !Qcmult_0_l. done.
  - replace (dec 100 1) with (1 * dec 100 1) at 2 by ring.
    apply Qcmult_le_mono_pos_r; [apply hundred_pos|].
    apply (Qcmult_le_mono_pos_l _ _ (num t) Htpos).
    rewrite Qcmult_div_r, Qcmult_1_r by exact Htne. by apply num_le.
Qed.

Lemma testSingleRequest_clock (baseUrl path verb : string) (w : World) :
  ∃ sample w',
    testSingleRequest baseUrl path verb w = (inr sample, w') ∧
    clock w' = clock w + exchangeTime (nextExchange w baseUrl path verb) ∧
    timestamp sample = wallClock w'.
Proof.
  rewrite testSingleRequest_run. cbn zeta. unfold exchangeTime, wallClock.
  destruct (fetched (nextExchange w baseUrl path verb)) as [response|].
  - destruct (text response); eexists _, _; (split; [reflexivity|]); cbn;
      (split; [ring | reflexivity]).
  - eexists _, _. split; [reflexivity|]. cbn. split; [ring | reflexivity].
Qed.

Lemma answersWithin_same (ms : Z) (w w' : World) :
  sameEnvironment w w' → answersWithin ms w → answersWithin ms w'.
Proof. intros (Hn & _ & _) Hc k url verb. rewrite Hn. apply Hc. Qed.

Lemma monitoringIteration_effect (baseUrl : string) (intervalSeconds : Z)
    (monitoringResults : list PerformanceMetric) (w : World) :
  ∃ chosen sample w',
    monitoringIteration baseUrl intervalSeconds monitoringResults w =
      (inr (monitoringResults ++ [sample],
            {| succeeded := isSuccessful sample;
               described := Endpoint.description chosen;
               lastResponseTime := responseTime sample;
               rollingAverage := rollingAverageOf (lastTen (monitoringResults ++ [sample]));
               rollingSuccessRate :=
                 rollingSuccessRateOf (lastTen (monitoringResults ++ [sample])) |}),
       w') ∧
    chosen ∈ getTestEndpoints ∧
    endpoint sample = Endpoint.path chosen ∧ method sample = Endpoint.method chosen ∧
    fetches w' = S (fetches w) ∧ draws w' = S (draws w) ∧
    results w' = results w ∧ stdout w' = stdout w ∧ sameEnvironment w w' ∧
    wallClock w' = Z.max (timestamp sample) (wallClock w + intervalSeconds * 1000) ∧
    (answersWithin (intervalSeconds * 1000) w →
       (timestamp sample ≤ wallClock w + intervalSeconds * 1000)%Z).
Proof.
  destruct (selectRandomEndpoint_run w) as (chosen & Hsel & Hin & _).
  destruct (testSingleRequest_effect baseUrl (Endpoint.path chosen)
              (Endpoint.method chosen) (countDraw w))
    as (sample & wp & Hrun & He & Hm & Hf & Hd & Hr & Ho & Henv & _).
  destruct (testSingleRequest_clock baseUrl (Endpoint.path chosen)
              (Endpoint.method chosen) (countDraw w))
    as (sample' & wp' & Hrun' & Hclock & Hstamp).
  rewrite Hrun in Hrun'. injection Hrun' as <- <-.
  set (delay := Z.max 0 (intervalSeconds * 1000 - (wallClock wp - wallClock w))).
  exists chosen, sample, (elapse (Qc_of_Z delay) wp).
  destruct Henv as (Hnet & Hent & Horigin).
  split.
  { unfold monitoringIteration.
    rewrite (bind_run _ _ w w (wallClock w)) by reflexivity.
    rewrite (bind_run _ _ w (countDraw w) (Some chosen)) by exact Hsel.
    cbn beta iota zeta.
    rewrite (bind_run _ _ (countDraw w) wp sample) by exact Hrun.
    rewrite (bind_run _ _ wp wp (wallClock wp)) by reflexivity.
    reflexivity. }
  cbn in Hf, Hd, Hr, Ho, Hnet, Hent, Horigin, Hclock.
  split; [exact Hin|]. split; [exact He|]. split; [exact Hm|].
  split; [exact Hf|]. split; [exact Hd|]. split; [exact Hr|]. split; [exact Ho|].
  split; [by split_and!|].
  assert (Hw' : wallClock (elapse (Qc_of_Z delay) wp) = (wallClock wp + delay)%Z).
  { unfold wallClock. cbn [clock timeOrigin elapse]. rewrite Qfloor_add_Z. lia. }
  split.
  - rewrite Hw', Hstamp. unfold delay. lia.
  - intros Hfast. rewrite Hstamp. unfold wallClock. rewrite Horigin, Hclock.
    rewrite <- Z.add_assoc. apply Z.add_le_mono_l.
    rewrite <- Qfloor_add_Z. apply Qfloor_resp_le.
    apply Qcplus_le_mono_l. apply Hfast.
Qed.

Lemma monitoringLoop_effect (baseUrl : string) (intervalSeconds : Z) (iterations : nat) :
  ∀ (monitoringResults : list PerformanceMetric) (w : World),
  ∃ samples lines w',
    monitoringLoop iterations baseUrl intervalSeconds monitoringResults w =
      (inr (monitoringResults ++ samples, lines), w') ∧
    length samples = iterations ∧ length lines = iterations ∧
    (∀ r, r ∈ samples → fromCatalog getTestEndpoints r) ∧
    (∀ k line sample, lines !! k = Some line → samples !! k = Some sample →
       succeeded line = isSuccessful sample ∧
       lastResponseTime line = responseTime sample ∧
       rollingAverage line
         = rollingAverageOf (lastTen (monitoringResults ++ take (S k) samples)) ∧
       rollingSuccessRate line
         = rollingSuccessRateOf (lastTen (monitoringResults ++ take (S k) samples))) ∧
    fetches w' = (fetches w + iterations)%nat ∧ draws w' = (draws w + iterations)%nat ∧
    results w' = results w ∧ stdout w' = stdout w ∧ sameEnvironment w w' ∧
    ((0 ≤ intervalSeconds)%Z →
       (wallClock w + Z.of_nat iterations * (intervalSeconds * 1000) ≤ wallClock w')%Z) ∧
    (answersWithin (intervalSeconds * 1000) w →
       wallClock w' = (wallClock w + Z.of_nat iterations * (intervalSeconds * 1000))%Z).
Proof.
  induction iterations as [|n IH]; intros buffer w.
  - exists [], [], w. rewrite app_nil_r.
    split; [reflexivity|]. split; [reflexivity|]. split; [reflexivity|].
    split; [intros r Hr; inversion Hr|].
    split; [intros k line sample Hk; inversion Hk|].
    split; [cbn; lia|]. split; [cbn; lia|].
    split; [reflexivity|]. split; [reflexivity|].
    split; [by split_and!|]. split; intros _; lia.
  - destruct (monitoringIteration_effect baseUrl intervalSeconds buffer w)
      as (chosen & sample & w1 & Hrun & Hin & He & Hm & Hf & Hd & Hr & Ho & Henv
          & Hwall & Hfast).
    destruct (IH (buffer ++ [sample]) w1)
      as (samples & lines & w' & Hrun' & Hls & Hll & Hcat & Hlines & Hf' & Hd' & Hr'
          & Ho' & Henv' & Hwall' & Hfast').
    eexists (sample :: samples), (_ :: lines), w'.
    split.
    { cbn [monitoringLoop].
      rewrite (bind_run _ _ w w1 _ Hrun). cbn beta iota.
      rewrite (bind_run _ _ w1 w' _ Hrun'). cbn beta iota.
      rewrite <- app_assoc. reflexivity. }
    split; [cbn; by rewrite Hls|]. split; [cbn; by rewrite Hll|].
    split.
    { intros r [->|Hr0]%elem_of_cons; [by exists chosen | by apply Hcat]. }
    split.
    { intros [|k] line sample0 Hline Hsample.
      - injection Hline as <-. injection Hsample as <-.
        cbn [succeeded lastResponseTime rollingAverage rollingSuccessRate take].
        done.
      - cbn in Hline, Hsample.
        destruct (Hlines k line sample0 Hline Hsample) as (H1 & H2 & H3 & H4).
        rewrite <- app_assoc in H3, H4. done. }
    split; [lia|]. split; [lia|].
    split; [congruence|]. split; [congruence|].
    split; [by eapply sameEnvironment_trans|].
    split.
    + intros Hpos. specialize (Hwall' Hpos). lia.
    + intros Hquick.
      specialize (Hfast Hquick).
      specialize (Hfast' (answersWithin_same _ _ _ Henv Hquick)). lia.
Qed.

(** X17: each status line of the monitor is computed over the last ten
    samples of its buffer, or over all of them while there are fewer: the
    window of the [k]-th round ends with the sample of that round, its
    average and success rate are those the line shows, the rate lies between
    0 and 100, and it is above 0 when the round's own probe succeeded.  The
    window is never empty, so no line divides by zero. *)
Theorem monitor_rolling_window (baseUrl : string) (intervalSeconds : Z) (iterations : nat)
    (monitoringResults : list PerformanceMetric) (w : World) :
  ∃ samples lines w',
    monitoringLoop iterations baseUrl intervalSeconds monitoringResults w =
      (inr (monitoringResults ++ samples, lines), w') ∧
    length lines = iterations ∧ length samples = iterations ∧
    ∀ k line, lines !! k = Some line →
      ∃ sample earlier,
        let recent := lastTen (monitoringResults ++ take (S k) samples) in
        samples !! k = Some sample ∧
        recent = earlier ++ [sample] ∧
        length recent = Nat.min 10 (length monitoringResults + S k) ∧
        succeeded line = isSuccessful sample ∧
        lastResponseTime line = responseTime sample ∧
        rollingAverage line = rollingAverageOf recent ∧
        rollingSuccessRate line = rollingSuccessRateOf recent ∧
        0 ≤ rollingSuccessRate line ∧ rollingSuccessRate line ≤ dec 100 1 ∧
        (succeeded line = true → 0 < rollingSuccessRate line).
Proof.
  destruct (monitoringLoop_effect baseUrl intervalSeconds iterations monitoringResults w)
    as (samples & lines & w' & Hrun & Hls & Hll & _ & Hlines & _).
  exists samples, lines, w'.
  split; [exact Hrun|]. split; [exact Hll|]. split; [exact Hls|].
  intros k line Hline.
  assert (Hk : (k < length samples)%nat).
  { rewrite Hls, <- Hll. by eapply lookup_lt_Some. }
  destruct (lookup_lt_is_Some_2 samples k Hk) as [sample Hsample].
  destruct (Hlines k line sample Hline Hsample) as (H1 & H2 & H3 & H4).
  rewrite (take_S_r samples k sample Hsample), app_assoc in H3, H4 |- *.
  destruct (lastTen_snoc (monitoringResults ++ take k samples) sample) as [earlier E].
  exists sample, earlier. cbn zeta.
  set (recent := lastTen ((monitoringResults ++ take k samples) ++ [sample])) in *.
  assert (Hlen : length recent = Nat.min 10 (length monitoringResults + S k)).
  { unfold recent. rewrite lastTen_length, !length_app, length_take. cbn [length]. lia. }
  assert (Hne : length recent ≠ 0%nat) by lia.
  destruct (rate_bounds (length (List.filter isSuccessful recent)) (length recent))
    as (Hlo & Hhi & Hpos); [apply List.filter_length_le | exact Hne |].
  split; [exact Hsample|]. split; [exact E|]. split; [exact Hlen|].
  split; [exact H1|]. split; [exact H2|]. split; [exact H3|]. split; [exact H4|].
  rewrite H4. unfold rollingSuccessRateOf.
  split; [exact Hlo|]. split; [exact Hhi|].
  intros Hgood. apply Hpos. rewrite E, List.filter_app, length_app.
  cbn [List.filter]. rewrite <- H1, Hgood. cbn [length]. lia.
Qed.



(** X19: the monitor only appends to its own buffer.  After [n] rounds the
    buffer holds what it held before followed by [n] samples, each for a
    path and method of the default catalog; [n] requests were sent and [n]
    random numbers drawn; the result set of the instance and the progress
    output are untouched. *)
Theorem monitor_footprint (baseUrl : string) (intervalSeconds : Z) (iterations : nat)
    (monitoringResults : list PerformanceMetric) (w : World) :
  ∃ samples lines w',
    monitoringLoop iterations baseUrl intervalSeconds monitoringResults w =
      (inr (monitoringResults ++ samples, lines), w') ∧
    length samples = iterations ∧
    (∀ r, r ∈ samples → fromCatalog getTestEndpoints r ∧ method r = "GET") ∧
    fetches w' = (fetches w + iterations)%nat ∧
    draws w' = (draws w + iterations)%nat ∧
    results w' = results w ∧ stdout w' = stdout w ∧ sameEnvironment w w'.
Proof.
  destruct (monitoringLoop_effect baseUrl intervalSeconds iterations monitoringResults w)
    as (samples & lines & w' & Hrun & Hls & _ & Hcat & _ & Hf & Hd & Hr & Ho & Henv & _).
  exists samples, lines, w'. split_and!; try done.
  intros r Hr0. split; [by apply Hcat|].
  destruct (Hcat r Hr0) as (chosen & Hin & _ & ->).
  apply list_elem_of_In in Hin. cbn in Hin.
  repeat (destruct Hin as [<-|Hin]; [reflexivity|]). done.
Qed.


(** ** One simulated user *)

Lemma tryCatch_run {A} (body : M A) (handler : exn → M A) (w w' : World) (a : A) :
  body w = (inr a, w') → tryCatch body handler w = (inr a, w').
Proof. intros H. unfold tryCatch. by rewrite H. Qed.

Lemma wallClock_lower (w w' : World) (z : Z) :
  timeOrigin w' = timeOrigin w → clock w + Qc_of_Z z ≤ clock w' →
  (wallClock w + z ≤ wallClock w')%Z.
Proof.
  intros Ho Hc. unfold wallClock. rewrite Ho, <- Z.add_assoc.
  apply Z.add_le_mono_l. rewrite <- Qfloor_add_Z. by apply Qfloor_resp_le.
Qed.

Lemma wallClock_upper (w w' : World) (z : Z) :
  timeOrigin w' = timeOrigin w → clock w' ≤ clock w + Qc_of_Z z →
  (wallClock w' ≤ wallClock w + z)%Z.
Proof.
  intros Ho Hc. unfold wallClock. rewrite Ho, <- Z.add_assoc.
  apply Z.add_le_mono_l. rewrite <- Qfloor_add_Z. by apply Qfloor_resp_le.
Qed.

Lemma userDelay_bounds (r : Qc) :
  0 ≤ r → r < 1 →
  Qc_of_Z 500 ≤ dec 500 1 + r * dec 1500 1 ∧
  dec 500 1 + r * dec 1500 1 ≤ Qc_of_Z 2000.
Proof.
  intros H0 H1.
  replace (Qc_of_Z 500) with (dec 500 1 + 0 * dec 1500 1)
    by (apply Qc_is_canon; reflexivity).
  replace (Qc_of_Z 2000) with (dec 500 1 + 1 * dec 1500 1)
    by (apply Qc_is_canon; reflexivity).
  split; apply Qcplus_le_mono_l; apply Qcmult_le_compat_r;
    try done; by apply Qclt_le_weak.
Qed.

Lemma simulateUserIteration_effect (baseUrl : string) (endTime : Z)
    (userId requestCount : nat) (w : World) :
  ∃ sample lines w',
    simulateUserIteration baseUrl endTime userId requestCount w =
      (inr (S requestCount, lines), w') ∧
    results w' = results w ++ [sample] ∧
    fromCatalog getTestEndpoints sample ∧
    fetches w' = S (fetches w) ∧ draws w' = S (S (draws w)) ∧
    stdout w' = stdout w ∧ sameEnvironment w w' ∧
    length lines =
      (if decide (userId = 0%nat ∧ (S requestCount mod 5)%nat = 0%nat) then 1%nat else 0%nat) ∧
    (∀ line, line ∈ lines →
       processed line = length (results w') ∧
       averageTime line = sumOf (map responseTime (results w')) / num (length (results w')) ∧
       progress line ≤ dec 100 1) ∧
    (causal w → unitInterval w → (wallClock w + 500 ≤ wallClock w')%Z) ∧
    (∀ ms, answersWithin ms w → unitInterval w →
       (wallClock w' ≤ wallClock w + (ms + 2000))%Z).
Proof.
  destruct (selectRandomEndpoint_run w) as (chosen & Hsel & Hin & _).
  destruct (testSingleRequest_effect baseUrl (Endpoint.path chosen)
              (Endpoint.method chosen) (countDraw w))
    as (sample & wp & Hrun & He & Hm & Hf & Hd & Hr & Ho & Henv & Hmono).
  destruct (testSingleRequest_clock baseUrl (Endpoint.path chosen)
              (Endpoint.method chosen) (countDraw w))
    as (sample' & wp' & Hrun' & Hclock & _).
  rewrite Hrun in Hrun'. injection Hrun' as <- <-.
  destruct Henv as (Hnet & Hent & Horigin).
  cbn in Hf, Hd, Hr, Ho, Hnet, Hent, Horigin, Hclock.
  set (w3 := withResults (results wp ++ [sample]) wp).
  set (line :=
         {| progress :=
              Math_min [dec 100 1;
                        Qc_of_Z (wallClock w3 - (endTime - 60000)) / dec 1000 1
                        / dec 60 1 * dec 100 1];
            processed := length (results w3);
            averageTime :=
              if decide (0 < length (results w3))%nat
              then sumOf (map responseTime (results w3)) / num (length (results w3))
              else 0 |}).
  set (lines := if decide (userId = 0%nat ∧ (S requestCount mod 5)%nat = 0%nat)
                then [line] else []).
  set (delay := dec 500 1 + entropy w3 (draws w3) * dec 1500 1).
  exists sample, lines, (elapse delay (countDraw w3)).
  split.
  { unfold simulateUserIteration.
    rewrite (bind_run _ _ w (countDraw w) (Some chosen) Hsel).
    apply tryCatch_run.
    rewrite (bind_run _ _ _ _ _ Hrun).
    rewrite (bind_run _ _ wp w3 ()) by reflexivity.
    cbn zeta.
    rewrite (bind_run _ _ w3 w3 lines).
    2:{ unfold lines. case_decide; reflexivity. }
    rewrite (bind_run _ _ w3 (countDraw w3) (entropy w3 (draws w3))) by reflexivity.
    reflexivity. }
  cbn [results fetches draws stdout elapse countDraw withResults w3].
  split; [by rewrite Hr|].
  split; [by exists chosen|].
  split; [exact Hf|]. split; [by rewrite Hd|]. split; [exact Ho|].
  split; [by split_and!|].
  split; [unfold lines; by case_decide|].
  split.
  { intros l Hl. unfold lines in Hl.
    case_decide; [|inversion Hl].
    apply list_elem_of_singleton in Hl as ->.
    cbn [processed averageTime progress line results withResults w3].
    rewrite Hr. split; [reflexivity|]. split.
    - case_decide as Hlen; [reflexivity|]. rewrite length_app in Hlen. cbn in Hlen. lia.
    - cbn [Math_min foldl]. unfold Qcmin. case_decide as Hle; [done|].
      by apply Qclt_le_weak, Qcnot_le_lt. }
  assert (Hdelay : unitInterval w →
            Qc_of_Z 500 ≤ delay ∧ delay ≤ Qc_of_Z 2000).
  { intros Hunit. unfold delay. cbn [entropy draws withResults w3].
    rewrite Hent. by apply userDelay_bounds; apply Hunit. }
  split.
  - intros Hcausal Hunit.
    apply wallClock_lower; [exact Horigin|].
    cbn [clock elapse countDraw withResults w3].
    destruct (Hdelay Hunit) as [Hlo _].
    assert (Hstep : clock w ≤ clock wp) by (apply Hmono, Hcausal).
    by apply Qcplus_le_compat.
  - intros ms Hquick Hunit.
    apply wallClock_upper; [exact Horigin|].
    cbn [clock elapse countDraw withResults w3].
    destruct (Hdelay Hunit) as [_ Hhi].
    rewrite Z2Qc_inj_add, Qcplus_assoc.
    apply Qcplus_le_compat; [|exact Hhi].
    rewrite Hclock. apply Qcplus_le_mono_l. apply Hquick.
Qed.

Lemma unitInterval_same (w w' : World) :
  sameEnvironment w w' → unitInterval w → unitInterval w'.
Proof. intros (_ & He & _) Hu k. rewrite He. apply Hu. Qed.

Lemma roundsUntil_step (endTime : Z) (w w' : World) :
  (wallClock w < endTime)%Z → (wallClock w + 500 ≤ wallClock w')%Z →
  (S (roundsUntil endTime w') ≤ roundsUntil endTime w)%nat.
Proof.
  unfold roundsUntil. intros Hopen Hstep.
  apply Nat2Z.inj_le. rewrite Nat2Z.inj_succ.
  rewrite (Z2Nat.id ((endTime - wallClock w + 499) / 500))
    by (Z.div_mod_to_equations; lia).
  destruct (Z_le_gt_dec 0 ((endTime - wallClock w' + 499) / 500)) as [Hpos|Hneg].
  - rewrite Z2Nat.id by exact Hpos. Z.div_mod_to_equations. lia.
  - rewrite Z2Nat.nonpos by lia. Z.div_mod_to_equations. lia.
Qed.

Lemma fifth_step (c n : nat) :
  ((if decide ((S c mod 5)%nat = 0%nat) then 1 else 0) + ((S c + n) / 5 - S c / 5)
   = (c + S n) / 5 - c / 5)%nat.
Proof.
  assert (Hmono : (S c / 5 ≤ (S c + n) / 5)%nat)
    by (apply Nat.Div0.div_le_mono; lia).
  assert (Hmono' : (c / 5 ≤ S c / 5)%nat) by (apply Nat.Div0.div_le_mono; lia).
  replace (c + S n)%nat with (S c + n)%nat by lia.
  assert (Hc : (S c / 5 = c / 5 + if decide ((S c mod 5)%nat = 0%nat) then 1 else 0)%nat).
  { apply Nat2Z.inj. rewrite Nat2Z.inj_add, !Nat2Z.inj_div.
    case_decide as Hmod.
    - apply (f_equal Z.of_nat) in Hmod. rewrite Nat2Z.inj_mod in Hmod.
      rewrite Nat2Z.inj_succ in *. cbn [Z.of_nat Pos.of_succ_nat Pos.succ] in *.
      Z.div_mod_to_equations. lia.
    - assert (Hmod' : (Z.of_nat (S c) mod 5 ≠ 0)%Z).
      { intros E. apply Hmod. apply Nat2Z.inj. rewrite Nat2Z.inj_mod. exact E. }
      rewrite Nat2Z.inj_succ in *. cbn [Z.of_nat Pos.of_succ_nat Pos.succ] in *.
      Z.div_mod_to_equations. lia. }
  lia.
Qed.

Lemma simulateUser_effect (baseUrl : string) (endTime : Z) (userId : nat) (fuel : nat) :
  ∀ (requestCount : nat) (w : World),
  causal w → unitInterval w → (roundsUntil endTime w ≤ fuel)%nat →
  ∃ n samples lines w',
    simulateUser fuel baseUrl endTime userId requestCount w =
      (inr (Some ((requestCount + n)%nat, lines)), w') ∧
    (n ≤ roundsUntil endTime w)%nat ∧
    results w' = results w ++ samples ∧ length samples = n ∧
    (∀ r, r ∈ samples → fromCatalog getTestEndpoints r) ∧
    fetches w' = (fetches w + n)%nat ∧ draws w' = (draws w + 2 * n)%nat ∧
    stdout w' = stdout w ∧ sameEnvironment w w' ∧
    (endTime ≤ wallClock w')%Z ∧
    length lines =
      (if decide (userId = 0%nat)
       then ((requestCount + n) / 5 - requestCount / 5)%nat else 0%nat) ∧
    (∀ line, line ∈ lines → progress line ≤ dec 100 1) ∧
    (∀ ms, answersWithin ms w →
       (endTime - wallClock w ≤ Z.of_nat n * (ms + 2000))%Z).
Proof.
  induction fuel as [|fuel IH]; intros count w Hcausal Hunit Hfuel.
  - assert (Hdone : ¬ (wallClock w < endTime)%Z).
    { intros Hopen. unfold roundsUntil in Hfuel.
      assert (1 ≤ (endTime - wallClock w + 499) / 500)%Z
        by (Z.div_mod_to_equations; lia).
      lia. }
    exists 0%nat, [], [], w. split.
    { cbn [simulateUser].
      rewrite (bind_run _ _ w w (wallClock w)) by reflexivity.
      case_decide; [done|]. by rewrite Nat.add_0_r. }
    rewrite app_nil_r, !Nat.add_0_r, Nat.sub_diag.
    split_and!; try done; try lia;
      try (by case_decide); try (intros ? Hin; inversion Hin); try (intros; lia).
  - destruct (decide (wallClock w < endTime)%Z) as [Hopen|Hdone].
    + destruct (simulateUserIteration_effect baseUrl endTime userId count w)
        as (sample & lines & w1 & Hrun & Hr & Hcat & Hf & Hd & Ho & Henv & Hll
            & Hlines & Hlo & Hhi).
      specialize (Hlo Hcausal Hunit).
      pose proof (roundsUntil_step endTime w w1 Hopen Hlo) as Hrounds.
      destruct (IH (S count) w1) as (n & samples & more & w' & Hrun' & Hn & Hr' & Hls
                                     & Hcat' & Hf' & Hd' & Ho' & Henv' & Hend & Hll'
                                     & Hlines' & Hhi').
      { by eapply causal_same. }
      { by eapply unitInterval_same. }
      { lia. }
      exists (S n), (sample :: samples), (lines ++ more), w'. split.
      { cbn [simulateUser].
        rewrite (bind_run _ _ w w (wallClock w)) by reflexivity.
        destruct (decide (wallClock w < endTime)%Z) as [_|?]; [|done].
        rewrite (bind_run _ _ w w1 _ Hrun). cbn beta iota.
        rewrite (bind_run _ _ w1 w' _ Hrun'). cbn beta iota.
        by replace (count + S n)%nat with (S count + n)%nat by lia. }
      split; [lia|].
      split; [by rewrite Hr', Hr, <- app_assoc|].
      split; [cbn; by rewrite Hls|].
      split.
      { intros r [->|Hr0]%elem_of_cons; [exact Hcat | by apply Hcat']. }
      split; [lia|]. split; [lia|]. split; [congruence|].
      split; [by eapply sameEnvironment_trans|].
      split; [exact Hend|].
      split.
      { rewrite length_app, Hll, Hll'.
        destruct (decide (userId = 0%nat)) as [Hu|Hu].
        - rewrite <- fifth_step.
          f_equal. do 2 case_decide; try done; tauto.
        - case_decide; [tauto | reflexivity]. }
      split.
      { intros line [Hl|Hl]%elem_of_app; [by apply Hlines | by apply Hlines']. }
      intros ms Hquick.
      specialize (Hhi ms Hquick Hunit).
      specialize (Hhi' ms (answersWithin_same _ _ _ Henv Hquick)).
      rewrite Nat2Z.inj_succ. lia.
    + exists 0%nat, [], [], w. split.
      { cbn [simulateUser].
        rewrite (bind_run _ _ w w (wallClock w)) by reflexivity.
        destruct (decide (wallClock w < endTime)%Z) as [?|_]; [done|].
        by rewrite Nat.add_0_r. }
      rewrite app_nil_r, !Nat.add_0_r, Nat.sub_diag.
      split_and!; try done; try lia;
        try (by case_decide); try (intros ? Hin; inversion Hin); try (intros; lia).
Qed.






(** X22: what a simulated user leaves behind.  Each round appends one
    sample, for a path and method of the default catalog, sends one request
    and draws two random numbers, one for the endpoint and one for the
    pause; the count the user keeps is the number of samples it appended. *)
Theorem simulated_user_footprint (baseUrl : string) (endTime : Z)
    (userId fuel requestCount : nat) (w : World) :
  causal w → unitInterval w → (roundsUntil endTime w ≤ fuel)%nat →
  ∃ n samples lines w',
    simulateUser fuel baseUrl endTime userId requestCount w =
      (inr (Some ((requestCount + n)%nat, lines)), w') ∧
    results w' = results w ++ samples ∧ length samples = n ∧
    (∀ r, r ∈ samples → fromCatalog getTestEndpoints r) ∧
    fetches w' = (fetches w + n)%nat ∧ draws w' = (draws w + 2 * n)%nat ∧
    sameEnvironment w w'.
Proof.
  intros Hcausal Hunit Hfuel.
  destruct (simulateUser_effect baseUrl endTime userId fuel requestCount w
              Hcausal Hunit Hfuel)
    as (n & samples & lines & w' & Hrun & _ & Hr & Hls & Hcat & Hf & Hd & _ & Henv & _).
  exists n, samples, lines, w'. by split_and!.
Qed.

Lemma simulated_user_footprint_witness :
  ∃ n lines w',
    simulateUser 6 "http://localhost:3000" 1700000003000 1 0 steadyWorld =
      (inr (Some (n, lines)), w') ∧
    length (results w') = n ∧ fetches w' = n ∧ draws w' = (2 * n)%nat.
Proof.
  destruct (simulated_user_footprint "http://localhost:3000" 1700000003000 1 6 0 steadyWorld
              steadyWorld_causal steadyWorld_unitInterval)
    as (n & samples & lines & w' & Hrun & Hr & Hls & _ & Hf & Hd & _).
  { vm_compute. lia. }
  exists n, lines, w'. split; [exact Hrun|].
  split; [rewrite Hr; exact Hls|]. split; [exact Hf | exact Hd].
Defined.

(** X23: only the user with id 0 writes progress lines, one after every
    fifth request it has made; no line shows more than 100 percent. *)
Theorem simulated_user_progress_lines (baseUrl : string) (endTime : Z)
    (userId fuel requestCount : nat) (w : World) :
  causal w → unitInterval w → (roundsUntil endTime w ≤ fuel)%nat →
  ∃ n lines w',
    simulateUser fuel baseUrl endTime userId requestCount w =
      (inr (Some ((requestCount + n)%nat, lines)), w') ∧
    length lines =
      (if decide (userId = 0%nat)
       then ((requestCount + n) / 5 - requestCount / 5)%nat else 0%nat) ∧
    (∀ line, line ∈ lines → progress line ≤ dec 100 1).
Proof.
  intros Hcausal Hunit Hfuel.
  destruct (simulateUser_effect baseUrl endTime userId fuel requestCount w
              Hcausal Hunit Hfuel)
    as (n & samples & lines & w' & Hrun & _ & _ & _ & _ & _ & _ & _ & _ & _ & Hll & Hp & _).
  exists n, lines, w'. by split_and!.
Qed.

Lemma simulated_user_progress_lines_witness :
  ∃ n lines w',
    simulateUser 6 "http://localhost:3000" 1700000003000 1 0 steadyWorld =
      (inr (Some (n, lines)), w') ∧
    lines = [].
Proof.
  destruct (simulated_user_progress_lines "http://localhost:3000" 1700000003000 1 6 0
              steadyWorld steadyWorld_causal steadyWorld_unitInterval)
    as (n & lines & w' & Hrun & Hll & _).
  { vm_compute. lia. }
  exists n, lines, w'. split; [exact Hrun|].
  by apply length_zero_iff_nil.
Defined.
